(** * pooltool / psim: the event-driven shot simulation and the cushion geometry

    A shallow embedding of [psim/engine.py] (classes [Event], [ShotHistory],
    [ShotSimulation]) and of [pooltool/objects/table.py] (classes [Table] and
    [Cushion]).

    - Times ([tau], [dt], [self.time]) are IEEE binary64 values, exactly as in
      the source: the engine only compares, adds and subtracts them, and
      [np.inf] is a value of the type.  They are Rocq's primitive floats.
    - Python exceptions are values of an error monad; a [while] loop whose
      termination the source does not guarantee takes a fuel argument.
    - [self.balls] and the history's per-ball tables are insertion-ordered
      dictionaries: association lists, because the generators iterate over
      them in order and the first minimum wins.
    - The cushion geometry is an algebraic construction (a line through two
      points and its unit normal); it is stated over the real numbers, of which
      numpy's float64 arithmetic is the rounded counterpart.
    - Progress reporting ([terminal.Progress], [terminal.Run]) and plotting are
      diagnostic only and are left out. *)

From Stdlib Require Import Floats ZArith List String Bool Lia Reals Lra.
Import ListNotations.

(** ** binary64 values *)

(** A value is a number when it equals itself: every value but NaN. *)
Definition is_number (x : float) : Prop := (x =? x)%float = true.

(** What a generator of candidate times reports: [np.inf], or a number below
    it. *)
Definition reported (x : float) : Prop :=
  x = infinity \/ (x <? infinity)%float = true.

(** ** Exceptions and possibly diverging computations *)

Inductive exn : Type :=
| KeyError | IndexError | ValueError | AttributeError | UnboundLocalError.

Inductive result (A : Type) : Type :=
| Ok (a : A)
| Raise (e : exn)
| OutOfFuel.

Arguments Ok {A} a.
Arguments Raise {A} e.
Arguments OutOfFuel {A}.

Definition bind {A B : Type} (c : result A) (k : A -> result B) : result B :=
  match c with
  | Ok a => k a
  | Raise e => Raise e
  | OutOfFuel => OutOfFuel
  end.

Notation "x <- c ;; k" := (bind c (fun x => k))
  (at level 61, c at next level, right associativity).
Notation "' p <- c ;; k" := (bind c (fun x => match x with p => k end))
  (at level 61, p pattern, c at next level, right associativity).

(** ** Insertion-ordered dictionaries with string keys *)

Definition ident : Type := string.

Fixpoint dict_find {A : Type} (k : ident) (d : list (ident * A)) : option A :=
  match d with
  | [] => None
  | (k', a) :: d' => if String.eqb k k' then Some a else dict_find k d'
  end.

(** [d[k]]: a key that is absent, or [None] used as a key, raises [KeyError]. *)
Definition dict_get {A : Type} (k : option ident) (d : list (ident * A)) : result A :=
  match k with
  | None => Raise KeyError
  | Some k =>
      match dict_find k d with
      | Some a => Ok a
      | None => Raise KeyError
      end
  end.

(** In-place update of the object stored under [k]. *)
Fixpoint dict_update {A : Type} (k : ident) (f : A -> A) (d : list (ident * A)) : list (ident * A) :=
  match d with
  | [] => []
  | (k', a) :: d' =>
      if String.eqb k k' then (k', f a) :: d' else (k', a) :: dict_update k f d'
  end.

Definition dict_values {A : Type} (d : list (ident * A)) : list A := map snd d.

Definition dict_keys {A : Type} (d : list (ident * A)) : list ident := map fst d.

Definition enumerate {A : Type} (l : list A) : list (nat * A) :=
  combine (seq 0 (List.length l)) l.

(** Python list indexing [l[i]]: negative indices count from the end. *)
Definition py_index {A : Type} (l : list A) (i : Z) : result A :=
  let len := Z.of_nat (List.length l) in
  let j := if (i <? 0)%Z then (len + i)%Z else i in
  if ((0 <=? j)%Z && (j <? len)%Z)%bool then
    match nth_error l (Z.to_nat j) with
    | Some a => Ok a
    | None => Raise IndexError
    end
  else Raise IndexError.

(** ** [pooltool/objects/table.py]: the cushion *)

Module Table.

Local Open Scope R_scope.

Definition point : Type := R * R * R.

Record Cushion : Type := mkCushion {
  id : ident;
  p1 : point;
  p2 : point;
  height : R;
  lx : R;
  ly : R;
  l0 : R;
  normal : point
}.

Definition norm (v : point) : R :=
  let '(x, y, z) := v in sqrt (x * x + y * y + z * z).

(** Modelled from the spec: [utils.unit_vector] is not among the sources
    ([pooltool/math/__init__.py] only re-exports it); the spec calls the
    result the unit normal, so it is the vector divided by its Euclidean
    norm. *)
Definition unit_vector (v : point) : point :=
  let '(x, y, z) := v in (x / norm v, y / norm v, z / norm v).

(** [Cushion.__init__(self, cushion_id, p1, p2)]. *)
Definition Cushion_init (cushion_id : ident) (p1 p2 : point) : result Cushion :=
  let '(p1x, p1y, p1z) := p1 in
  let '(p2x, p2y, p2z) := p2 in
  if Req_dec_T p1z p2z then
    let height := p1z in
    let '(lx, ly, l0) :=
      if Req_dec_T (p2x - p1x) 0 then
        (1, 0, - p1x)
      else
        (- (p2y - p1y) / (p2x - p1x), 1, (p2y - p1y) / (p2x - p1x) * p1x - p1y) in
    Ok (mkCushion cushion_id p1 p2 height lx ly l0 (unit_vector (lx, ly, 0)))
  else
    Raise ValueError.



(** *** [Table.__init__]: the four cushions *)







End Table.

(** ** [psim/engine.py]: data *)

Module Engine.

Local Open Scope float_scope.

(** A ball's motion state [s].  [nan_state] is the [np.nan] filler that
    [init_ball_history] writes; like [pocketed] it equals none of the states
    the engine dispatches on. *)
Inductive motion_state : Type :=
| stationary | spinning | sliding | rolling | pocketed | nan_state.

Definition vec3 : Type := float * float * float.

(** The 4x3 kinematic block: position, velocity, angular velocity and the
    angular integral. *)
Record RVW : Type := mkRVW {
  rvw_r : vec3;
  rvw_v : vec3;
  rvw_w : vec3;
  rvw_e : vec3
}.

Definition nan_rvw : RVW :=
  let v := (nan, nan, nan) in mkRVW v v v v.

Record Ball : Type := mkBall {
  ball_id : ident;
  ball_s : motion_state;
  ball_rvw : RVW;
  ball_R : float;
  ball_m : float
}.

(** Modelled from the spec: [Ball.set(rvw, s)] ([psim.objects] is not among
    the sources) replaces the kinematic block and the motion state of the
    ball and nothing else. *)
Definition ball_set (b : Ball) (rvw : RVW) (s : motion_state) : Ball :=
  mkBall (ball_id b) s rvw (ball_R b) (ball_m b).

Record Rail : Type := mkRail {
  rail_id : ident;
  rail_lx : float;
  rail_ly : float;
  rail_l0 : float;
  rail_normal : vec3;
  rail_height : float
}.

Record TableT : Type := mkTable {
  u_s : float;
  u_sp : float;
  u_r : float;
  rails : list (ident * Rail)
}.

Inductive event_kind : Type :=
| end_roll | end_slide | end_spin | ball_ball | ball_rail.

(** [Event(event_type, agents, tau)]; [event_type] is [None] or one of the
    five tags, and an agent may be [None]. *)
Record Event : Type := mkEvent {
  event_type : option event_kind;
  agents : list (option ident);
  tau : float
}.

(** One entry of [history['balls']]: the lists under ['s'] and ['rvw'] (the
    ['euler'] and ['quat'] lists are filled for playback only). *)
Record BallHistory : Type := mkBallHistory {
  h_s : list motion_state;
  h_rvw : list RVW
}.

Record History : Type := mkHistory {
  h_balls : list (ident * BallHistory);
  h_index : list Z;
  h_time : list float;
  h_event : list (option Event)
}.

(** The state of a [ShotSimulation] object. *)
Record Shot : Type := mkShot {
  balls : list (ident * Ball);
  table : TableT;
  g : float;
  vectorized : bool;
  history : History;
  n : Z;
  time : float
}.

Definition with_balls (sys : Shot) (bs : list (ident * Ball)) : Shot :=
  mkShot bs (table sys) (g sys) (vectorized sys) (history sys) (n sys) (time sys).

(** Modelled from the spec: [psim.physics] is not among the sources; its
    functions are parameters of the engine, with the arguments the engine's
    calls give them, and they are pure (spec, Physics Kernel). *)
Class Physics : Type := {
  evolve_ball_motion :
    motion_state -> RVW -> float -> float -> float -> float -> float -> float -> float ->
    RVW * motion_state;
  get_roll_time : RVW -> float -> float -> float;
  get_slide_time : RVW -> float -> float -> float -> float;
  get_spin_time : RVW -> float -> float -> float -> float;
  get_ball_ball_collision_time :
    RVW -> RVW -> motion_state -> motion_state ->
    float -> float -> float -> float -> float -> float -> float;
  get_ball_rail_collision_time :
    RVW -> motion_state -> float -> float -> float -> float -> float -> float -> float -> float;
  resolve_ball_ball_collision : RVW -> RVW -> RVW * RVW;
  resolve_ball_rail_collision : RVW -> vec3 -> float -> float -> float -> RVW
}.

Definition state_eqb (a b : motion_state) : bool :=
  match a, b with
  | stationary, stationary | spinning, spinning | sliding, sliding
  | rolling, rolling | pocketed, pocketed => true
  | _, _ => false
  end.

(** ** [ShotHistory] *)

(** [init_ball_history]: fresh lists, [self.n] fillers long ([[x] * n] is
    empty for [n <= 0]). *)
Definition init_ball_history (sys : Shot) (ball_id : ident) : result Shot :=
  match dict_find ball_id (balls sys) with
  | None => Raise ValueError
  | Some _ =>
      let k := Z.to_nat (n sys) in
      let entry := mkBallHistory (repeat nan_state k) (repeat nan_rvw k) in
      let h := history sys in
      let hb :=
        match dict_find ball_id (h_balls h) with
        | Some _ => dict_update ball_id (fun _ => entry) (h_balls h)
        | None => h_balls h ++ [(ball_id, entry)]
        end in
      Ok (mkShot (balls sys) (table sys) (g sys) (vectorized sys)
                 (mkHistory hb (h_index h) (h_time h) (h_event h)) (n sys) (time sys))
  end.

Fixpoint touch_history_loop (ids : list ident) (sys : Shot) : result Shot :=
  match ids with
  | [] => Ok sys
  | ball_id :: ids' =>
      match dict_find ball_id (h_balls (history sys)) with
      | Some _ => touch_history_loop ids' sys
      | None => sys' <- init_ball_history sys ball_id ;; touch_history_loop ids' sys'
      end
  end.

Definition touch_history (sys : Shot) : result Shot :=
  touch_history_loop (dict_keys (balls sys)) sys.

Definition empty_history : History := mkHistory [] [] [] [].

Definition reset_history (sys : Shot) : result Shot :=
  touch_history (mkShot (balls sys) (table sys) (g sys) false empty_history (-1)%Z 0).

(** The per-ball part of [timestamp]: append the ball's [s] and [rvw] to its
    entry; a ball without an entry raises [KeyError]. *)
Fixpoint log_balls (bs : list (ident * Ball)) (hb : list (ident * BallHistory))
  : result (list (ident * BallHistory)) :=
  match bs with
  | [] => Ok hb
  | (ball_id, ball) :: bs' =>
      match dict_find ball_id hb with
      | None => Raise KeyError
      | Some _ =>
          log_balls bs'
            (dict_update ball_id
               (fun e => mkBallHistory (h_s e ++ [ball_s ball]) (h_rvw e ++ [ball_rvw ball]))
               hb)
      end
  end.

(** [timestamp(dt, event)].  Once the history is vectorized its lists are
    arrays, which have no [append]. *)
Definition timestamp (sys : Shot) (dt : float) (event : option Event) : result Shot :=
  let n' := (n sys + 1)%Z in
  let time' := time sys + dt in
  if vectorized sys then Raise AttributeError
  else
    let h := history sys in
    hb <- log_balls (balls sys) (h_balls h) ;;
    Ok (mkShot (balls sys) (table sys) (g sys) (vectorized sys)
               (mkHistory hb (h_index h ++ [n']) (h_time h ++ [time']) (h_event h ++ [event]))
               n' time').

(** [set_table_state_via_history(index, history)]. *)
Fixpoint set_state_loop (bs : list (ident * Ball)) (index : Z) (h : History)
  : result (list (ident * Ball)) :=
  match bs with
  | [] => Ok []
  | (ball_id, ball) :: bs' =>
      e <- dict_get (Some ball_id) (h_balls h) ;;
      rvw <- py_index (h_rvw e) index ;;
      s <- py_index (h_s e) index ;;
      rest <- set_state_loop bs' index h ;;
      Ok ((ball_id, ball_set ball rvw s) :: rest)
  end.

Definition set_table_state_via_history (sys : Shot) (index : Z) (h : History) : result Shot :=
  bs <- set_state_loop (balls sys) index h ;;
  Ok (with_balls sys bs).

(** [vectorize_history]: list to array is a change of representation only. *)
Definition vectorize_history (sys : Shot) : Shot :=
  mkShot (balls sys) (table sys) (g sys) true (history sys) (n sys) (time sys).

(** ** [ShotSimulation] *)

Section Simulation.

Context {phys : Physics}.

Definition is_stationary (b : Ball) : bool := state_eqb (ball_s b) stationary.

Definition is_sliding (b : Ball) : bool := state_eqb (ball_s b) sliding.

(** The body of the loop of [evolve]: one ball advanced by [dt] under its
    current regime. *)
Definition evolve_ball (sys : Shot) (dt : float) (ball : Ball) : Ball :=
  let rvw_s :=
    evolve_ball_motion (ball_s ball) (ball_rvw ball) (ball_R ball) (ball_m ball)
      (u_s (table sys)) (u_sp (table sys)) (u_r (table sys)) (g sys) dt in
  ball_set ball (fst rvw_s) (snd rvw_s).

Definition evolve_balls (sys : Shot) (dt : float) : list (ident * Ball) :=
  map (fun kb => (fst kb, evolve_ball sys dt (snd kb))) (balls sys).

(** [resolve(event)]. *)
Definition resolve (sys : Shot) (event : Event) : result Shot :=
  match event_type event with
  | None => Ok sys
  | Some ball_ball =>
      match agents event with
      | [ball_id1; ball_id2] =>
          ball1 <- dict_get ball_id1 (balls sys) ;;
          ball2 <- dict_get ball_id2 (balls sys) ;;
          let '(rvw1, rvw2) :=
            resolve_ball_ball_collision (ball_rvw ball1) (ball_rvw ball2) in
          match ball_id1, ball_id2 with
          | Some k1, Some k2 =>
              let bs1 := dict_update k1 (fun b => ball_set b rvw1 sliding) (balls sys) in
              let bs2 := dict_update k2 (fun b => ball_set b rvw2 sliding) bs1 in
              Ok (with_balls sys bs2)
          | _, _ => Raise KeyError
          end
      | _ => Raise ValueError
      end
  | Some ball_rail =>
      match agents event with
      | [ball_id; rail_id] =>
          ball <- dict_get ball_id (balls sys) ;;
          rail <- dict_get rail_id (rails (table sys)) ;;
          let rvw :=
            resolve_ball_rail_collision (ball_rvw ball) (rail_normal rail)
              (ball_R ball) (ball_m ball) (rail_height rail) in
          match ball_id with
          | Some k =>
              Ok (with_balls sys (dict_update k (fun b => ball_set b rvw sliding) (balls sys)))
          | None => Raise KeyError
          end
      | _ => Raise ValueError
      end
  | Some _ => Ok sys
  end.

(** [evolve(dt, log=True, event=None)]. *)
Definition evolve (sys : Shot) (dt : float) (log : bool) (event : option Event) : result Shot :=
  let sys1 := with_balls sys (evolve_balls sys dt) in
  sys2 <- match event with
          | Some e => resolve sys1 e
          | None => Ok sys1
          end ;;
  if log then timestamp sys2 dt event else Ok sys2.

(** The locals of the loop of [get_min_motion_event_time].  [tau] and
    [event_type] are assigned inside the [if]/[elif] chain only, so a ball in
    none of the four states sees the values of the previous ball
    ([m_last]), or no value at all. *)
Record motion_acc : Type := mkMotionAcc {
  m_tau_min : float;
  m_ball_id : option ident;
  m_event_type_min : option event_kind;
  m_last : option (float * event_kind)
}.

Definition motion_compare (acc : motion_acc) (ball : Ball) (tau : float) (e : event_kind)
  : motion_acc :=
  if tau <? m_tau_min acc then mkMotionAcc tau (Some (ball_id ball)) (Some e) (Some (tau, e))
  else mkMotionAcc (m_tau_min acc) (m_ball_id acc) (m_event_type_min acc) (Some (tau, e)).

Definition motion_step (sys : Shot) (acc : motion_acc) (ball : Ball) : result motion_acc :=
  match ball_s ball with
  | stationary => Ok acc
  | rolling =>
      Ok (motion_compare acc ball
            (get_roll_time (ball_rvw ball) (u_r (table sys)) (g sys)) end_roll)
  | sliding =>
      Ok (motion_compare acc ball
            (get_slide_time (ball_rvw ball) (ball_R ball) (u_s (table sys)) (g sys)) end_slide)
  | spinning =>
      Ok (motion_compare acc ball
            (get_spin_time (ball_rvw ball) (ball_R ball) (u_sp (table sys)) (g sys)) end_spin)
  | _ =>
      match m_last acc with
      | Some (tau, e) => Ok (motion_compare acc ball tau e)
      | None => Raise UnboundLocalError
      end
  end.

Fixpoint motion_loop (sys : Shot) (bs : list Ball) (acc : motion_acc) : result motion_acc :=
  match bs with
  | [] => Ok acc
  | ball :: bs' => acc' <- motion_step sys acc ball ;; motion_loop sys bs' acc'
  end.

(** [get_min_motion_event_time()]: [(tau_min, (ball_id,), event_type_min)]. *)
Definition get_min_motion_event_time (sys : Shot)
  : result (float * list (option ident) * option event_kind) :=
  acc <- motion_loop sys (dict_values (balls sys)) (mkMotionAcc infinity None None None) ;;
  Ok (m_tau_min acc, [m_ball_id acc], m_event_type_min acc).

(** The two nested [for] loops of [get_min_ball_ball_event_time] with their
    two [continue] guards, for any loop body. *)
Definition ball_ball_loop {A : Type} (body : A -> nat * Ball -> nat * Ball -> A)
  (bs : list Ball) (init : A) : A :=
  fold_left
    (fun acc ib1 =>
       fold_left
         (fun acc ib2 =>
            if (fst ib2 <=? fst ib1)%nat then acc
            else if is_stationary (snd ib1) && is_stationary (snd ib2) then acc
            else body acc ib1 ib2)
         (enumerate bs) acc)
    (enumerate bs) init.

Definition mu_of (sys : Shot) (ball : Ball) : float :=
  if is_sliding ball then u_s (table sys) else u_r (table sys).

Definition ball_ball_body (sys : Shot) (acc : float * list (option ident))
  (ib1 ib2 : nat * Ball) : float * list (option ident) :=
  let ball1 := snd ib1 in
  let ball2 := snd ib2 in
  let tau :=
    get_ball_ball_collision_time (ball_rvw ball1) (ball_rvw ball2) (ball_s ball1) (ball_s ball2)
      (mu_of sys ball1) (mu_of sys ball2) (ball_m ball1) (ball_m ball2) (g sys) (ball_R ball1) in
  if tau <? fst acc then (tau, [Some (ball_id ball1); Some (ball_id ball2)]) else acc.

(** [get_min_ball_ball_event_time()]: [(tau_min, ball_ids)]. *)
Definition get_min_ball_ball_event_time (sys : Shot) : float * list (option ident) :=
  ball_ball_loop (ball_ball_body sys) (dict_values (balls sys)) (infinity, []).

(** The pairs of enumerated balls for which the loop body runs, in order:
    the same loops, with a body that records its arguments. *)
Definition ball_ball_considered (sys : Shot) : list ((nat * Ball) * (nat * Ball)) :=
  ball_ball_loop (fun tr ib1 ib2 => tr ++ [(ib1, ib2)]) (dict_values (balls sys)) [].

(** The positions, in iteration order, of the two members of a pair. *)
Definition positions {A B : Type} (p : (nat * A) * (nat * B)) : nat * nat :=
  (fst (fst p), fst (snd p)).

(** The nested loops of [get_min_ball_rail_event_time], for any loop body. *)
Definition ball_rail_loop {A : Type} (body : A -> nat * Ball -> nat * Rail -> A)
  (bs : list Ball) (rs : list Rail) (init : A) : A :=
  fold_left
    (fun acc ib =>
       if is_stationary (snd ib) then acc
       else fold_left (fun acc ir => body acc ib ir) (enumerate rs) acc)
    (enumerate bs) init.

Definition ball_rail_body (sys : Shot) (acc : float * list (option ident))
  (ib : nat * Ball) (ir : nat * Rail) : float * list (option ident) :=
  let ball := snd ib in
  let rail := snd ir in
  let tau :=
    get_ball_rail_collision_time (ball_rvw ball) (ball_s ball)
      (rail_lx rail) (rail_ly rail) (rail_l0 rail)
      (mu_of sys ball) (ball_m ball) (g sys) (ball_R ball) in
  if tau <? fst acc then (tau, [Some (ball_id ball); Some (rail_id rail)]) else acc.

(** [get_min_ball_rail_event_time()]: [(tau_min, agent_ids)]. *)
Definition get_min_ball_rail_event_time (sys : Shot) : float * list (option ident) :=
  ball_rail_loop (ball_rail_body sys) (dict_values (balls sys))
    (dict_values (rails (table sys))) (infinity, [None; None]).

(** The (ball, rail) pairs for which the loop body runs, in order. *)
Definition ball_rail_considered (sys : Shot) : list ((nat * Ball) * (nat * Rail)) :=
  ball_rail_loop (fun tr ib ir => tr ++ [(ib, ir)]) (dict_values (balls sys))
    (dict_values (rails (table sys))) [].

(** [get_next_event()]. *)
Definition get_next_event (sys : Shot) : result Event :=
  let tau_min := infinity in
  let agents := [] in
  let event_type := None in
  '(tau, ids, e) <- get_min_motion_event_time sys ;;
  let '(tau_min, event_type, agents) :=
    if tau <? tau_min then (tau, e, ids) else (tau_min, event_type, agents) in
  let '(tau, ids) := get_min_ball_ball_event_time sys in
  let '(tau_min, event_type, agents) :=
    if tau <? tau_min then (tau, Some ball_ball, ids) else (tau_min, event_type, agents) in
  let '(tau, ids) := get_min_ball_rail_event_time sys in
  let '(tau_min, event_type, agents) :=
    if tau <? tau_min then (tau, Some ball_rail, ids) else (tau_min, event_type, agents) in
  Ok (mkEvent event_type agents tau_min).

(** [time is not None and self.time >= time]. *)
Definition bound_reached (time_bound : option float) (sys : Shot) : bool :=
  match time_bound with
  | Some t => t <=? time sys
  | None => false
  end.

(** The body of the [while] loop of [simulate] up to the [break] test. *)
Definition iteration (sys : Shot) : result (Shot * Event) :=
  event <- get_next_event sys ;;
  sys' <- evolve sys (tau event) true (Some event) ;;
  Ok (sys', event).

(** [while event.tau < np.inf: ...]; [fuel] bounds the number of
    iterations. *)
Fixpoint simulate_loop (fuel : nat) (time_bound : option float) (sys : Shot) (event : Event)
  : result Shot :=
  if tau event <? infinity then
    match fuel with
    | O => OutOfFuel
    | S fuel' =>
        '(sys', event') <- iteration sys ;;
        if bound_reached time_bound sys' then Ok sys'
        else simulate_loop fuel' time_bound sys' event'
    end
  else Ok sys.

Definition initial_event : Event := mkEvent None [] 0.

(** [simulate(time=None)]. *)
Definition simulate (fuel : nat) (time_bound : option float) (sys : Shot) : result Shot :=
  sys0 <- touch_history sys ;;
  sys1 <- timestamp sys0 0 (Some initial_event) ;;
  sys2 <- simulate_loop fuel time_bound sys1 initial_event ;;
  Ok (vectorize_history sys2).

(** The inner [while event_time < (event.tau - dt_prime)] loop of
    [continuize]; it returns the system, [event_time] and [dt_prime]. *)
Fixpoint continuize_steps (fuel : nat) (sys : Shot) (dt : float)
  (event_tau event_time dt_prime : float) : result (Shot * float * float) :=
  if event_time <? (event_tau - dt_prime) then
    match fuel with
    | O => OutOfFuel
    | S fuel' =>
        sys' <- evolve sys dt_prime true None ;;
        continuize_steps fuel' sys' dt event_tau (event_time + dt_prime) dt
    end
  else Ok (sys, event_time, dt_prime).

(** The [for index, event in zip(...)] loop of [continuize]. *)
Fixpoint continuize_events (fuel : nat) (sys : Shot) (dt : float) (old_history : History)
  (entries : list (Z * option Event)) (dt_prime : float) : result Shot :=
  match entries with
  | [] => Ok sys
  | (index, None) :: rest => continuize_events fuel sys dt old_history rest dt_prime
  | (index, Some event) :: rest =>
      if tau event =? infinity then Ok sys
      else
        '(sys1, event_time, _) <- continuize_steps fuel sys dt (tau event) 0 dt_prime ;;
        let dt_prime := dt - (tau event - event_time) in
        sys2 <- set_table_state_via_history sys1 index old_history ;;
        continuize_events fuel sys2 dt old_history rest dt_prime
  end.

(** [continuize(dt)]. *)
Definition continuize (fuel : nat) (sys : Shot) (dt : float) : result Shot :=
  let old_history := history sys in
  sys0 <- reset_history sys ;;
  sys1 <- set_table_state_via_history sys0 0 old_history ;;
  sys2 <- timestamp sys1 0 None ;;
  sys3 <- continuize_events fuel sys2 dt old_history
            (combine (h_index old_history) (h_event old_history)) dt ;;
  Ok (vectorize_history sys3).

(** ** Vocabulary of the statements *)

(** Modelled from the spec: [physics.evolve_ball_motion] is not among the
    sources; of a stationary ball the spec says (4.1) "stationary:
    identity". *)
Definition stationary_is_identity : Prop :=
  forall rvw R m us usp ur g t,
    evolve_ball_motion stationary rvw R m us usp ur g t = (rvw, stationary).


End Simulation.

(** Every ball of the shot has an entry in [history['balls']]. *)
Definition covered (sys : Shot) : Prop :=
  incl (dict_keys (balls sys)) (dict_keys (h_balls (history sys))).

(** Two states that differ at most in [history['balls']]. *)
Definition same_but_ball_history (sys sys' : Shot) : Prop :=
  balls sys' = balls sys /\ table sys' = table sys /\ g sys' = g sys /\
  vectorized sys' = vectorized sys /\ n sys' = n sys /\ time sys' = time sys /\
  h_index (history sys') = h_index (history sys) /\
  h_time (history sys') = h_time (history sys) /\
  h_event (history sys') = h_event (history sys).

(** The states the [if]/[elif] chain of [get_min_motion_event_time] has a
    branch for. *)
Definition dispatched (s : motion_state) : bool :=
  match s with
  | stationary | rolling | sliding | spinning => true
  | _ => false
  end.

(** Every ball of the shot is stationary. *)
Definition all_stationary (bs : list (ident * Ball)) : Prop :=
  Forall (fun b => ball_s b = stationary) (dict_values bs).

(** The ball-ball loops run their body on this list of pairs, in order. *)
Definition ball_ball_schedule (bs : list Ball) : list ((nat * Ball) * (nat * Ball)) :=
  flat_map
    (fun ib1 =>
       flat_map
         (fun ib2 =>
            if (fst ib2 <=? fst ib1)%nat then []
            else if is_stationary (snd ib1) && is_stationary (snd ib2) then []
            else [(ib1, ib2)])
         (enumerate bs))
    (enumerate bs).

Definition ball_rail_schedule (bs : list Ball) (rs : list Rail)
  : list ((nat * Ball) * (nat * Rail)) :=
  flat_map
    (fun ib =>
       if is_stationary (snd ib) then []
       else flat_map (fun ir => [(ib, ir)]) (enumerate rs))
    (enumerate bs).

Definition pos_eq_dec (x y : nat * nat) : {x = y} + {x <> y}.
Proof. decide equality; apply Nat.eq_dec. Defined.

(** ** A concrete kernel and concrete shots

    A frictionless kernel on the x axis: enough physics to run the engine on
    small shots.  Balls keep their velocity, equal balls exchange velocities
    on impact, a rail reverses the velocity. *)

Definition px (rvw : RVW) : float := fst (fst (rvw_r rvw)).

Definition vx (rvw : RVW) : float := fst (fst (rvw_v rvw)).

Definition wz (rvw : RVW) : float := snd (rvw_w rvw).

Definition set_px (rvw : RVW) (x : float) : RVW :=
  mkRVW (x, snd (fst (rvw_r rvw)), snd (rvw_r rvw)) (rvw_v rvw) (rvw_w rvw) (rvw_e rvw).

Definition set_vx (rvw : RVW) (v : float) : RVW :=
  mkRVW (rvw_r rvw) (v, snd (fst (rvw_v rvw)), snd (rvw_v rvw)) (rvw_w rvw) (rvw_e rvw).

Definition line_evolve (s : motion_state) (rvw : RVW) (R m us usp ur g t : float)
  : RVW * motion_state :=
  match s with
  | stationary => (rvw, stationary)
  | _ => (set_px rvw (px rvw + vx rvw * t), s)
  end.

Definition line_ball_ball_time (rvw1 rvw2 : RVW) (s1 s2 : motion_state)
  (mu1 mu2 m1 m2 g R : float) : float :=
  let gap := abs (px rvw2 - px rvw1) - 2 * R in
  let closing := if px rvw1 <? px rvw2 then vx rvw1 - vx rvw2 else vx rvw2 - vx rvw1 in
  if 0 <? closing then gap / closing else infinity.

Definition line_ball_rail_time (rvw : RVW) (s : motion_state)
  (lx ly l0 mu m g R : float) : float :=
  let d := lx * px rvw + l0 in
  let approach := if d <? 0 then lx * vx rvw else - (lx * vx rvw) in
  if 0 <? approach then (abs d - R) / approach else infinity.

#[export] Instance line_physics : Physics := {
  evolve_ball_motion := line_evolve;
  get_roll_time := fun rvw ur g => abs (vx rvw) / (ur * g);
  get_slide_time := fun rvw R us g => abs (vx rvw) / (us * g);
  get_spin_time := fun rvw R usp g => abs (wz rvw) * (2 * R / (5 * usp * g));
  get_ball_ball_collision_time := line_ball_ball_time;
  get_ball_rail_collision_time := line_ball_rail_time;
  resolve_ball_ball_collision :=
    fun rvw1 rvw2 => (set_vx rvw1 (vx rvw2), set_vx rvw2 (vx rvw1));
  resolve_ball_rail_collision := fun rvw normal R m h => set_vx rvw (- vx rvw)
}.

Local Open Scope string_scope.

Definition zero3 : vec3 := (0, 0, 0).

Definition rvw_at (x v : float) : RVW := mkRVW (x, 0, 0) (v, 0, 0) zero3 zero3.

Definition left_rail : Rail := mkRail "L" 1 0 0 (1, 0, 0) 0.5.

Definition right_rail : Rail := mkRail "R" 1 0 (-2) (1, 0, 0) 0.5.

Definition new_shot (bs : list (ident * Ball)) (t : TableT) : Shot :=
  mkShot bs t 1 false empty_history (-1)%Z 0.

(** A frictionless table two units wide. *)
Definition smooth_table : TableT :=
  mkTable 0 0 0 [("L", left_rail); ("R", right_rail)].

(** The same table with rolling friction. *)
Definition cloth_table : TableT :=
  mkTable 1 1 1 [("L", left_rail); ("R", right_rail)].

(** One ball of radius 1/2 rolling to the right from the left rail: on
    [cloth_table] it stops rolling after one time unit, the instant at which
    it reaches the right rail. *)
Definition cue_rolling : Ball := mkBall "cue" rolling (rvw_at 0.5 1) 0.5 1.

Definition tie_shot : Shot := new_shot [("cue", cue_rolling)] cloth_table.

(** On [smooth_table] the same ball bounces between the rails for ever, one
    impact per time unit. *)
Definition bounce_shot : Shot := new_shot [("cue", cue_rolling)] smooth_table.

(** A frictionless table eight units long, and two balls on it: the cue
    ball drifts to the right, the 8 ball reaches the right rail after one
    time unit. *)
Definition long_table : TableT :=
  mkTable 0 0 0 [("L", left_rail); ("R", mkRail "R" 1 0 (-8) (1, 0, 0) 0.5)].

Definition two_ball_shot : Shot :=
  new_shot [("cue", mkBall "cue" rolling (rvw_at 1 0.5) 0.5 1);
            ("8", mkBall "8" rolling (rvw_at 6.5 1) 0.5 1)] long_table.

(** Two balls at rest. *)
Definition rest_shot : Shot :=
  new_shot [("cue", mkBall "cue" stationary (rvw_at 0.5 0) 0.5 1);
            ("8", mkBall "8" stationary (rvw_at 1.5 0) 0.5 1)] smooth_table.

(** What [simulate(time=1)] leaves of [bounce_shot]: the initial sample and
    the impact on the right rail at time 1. *)
Definition right_hit : Event := mkEvent (Some ball_rail) [Some "cue"; Some "R"] 1.

Definition bounce_recorded : Shot :=
  mkShot [("cue", mkBall "cue" sliding (rvw_at 1.5 (-1)) 0.5 1)] smooth_table 1 true
    (mkHistory
       [("cue", mkBallHistory [rolling; sliding] [rvw_at 0.5 1; rvw_at 1.5 (-1)])]
       [0; 1]%Z [0; 1] [Some initial_event; Some right_hit])
    1%Z 1.

(** A table that leaves the ball 1/64 of a unit between its rails: the ball
    rattles, one impact every 1/64 time unit. *)
Definition narrow_table : TableT :=
  mkTable 0 0 0 [("L", left_rail); ("R", mkRail "R" 1 0 (-1.015625) (1, 0, 0) 0.5)].

Definition rattle_shot : Shot := new_shot [("cue", cue_rolling)] narrow_table.

Definition rattle_event (i : nat) : Event :=
  mkEvent (Some ball_rail) [Some "cue"; Some (if Nat.even i then "R" else "L")] 0.015625.

Definition rattle_rvw (i : nat) : RVW :=
  if Nat.even i then rvw_at 0.5 1 else rvw_at 0.515625 (-1).

(** What [simulate(time=0.171875)] leaves of [rattle_shot]: the initial
    sample and eleven impacts, the last at time 11/64. *)
Definition rattle_recorded : Shot :=
  mkShot [("cue", mkBall "cue" sliding (rattle_rvw 11) 0.5 1)] narrow_table 1 true
    (mkHistory
       [("cue", mkBallHistory (rolling :: repeat sliding 11) (map rattle_rvw (seq 0 12)))]
       (map Z.of_nat (seq 0 12))
       [0; 0.015625; 0.03125; 0.046875; 0.0625; 0.078125; 0.09375; 0.109375; 0.125;
        0.140625; 0.15625; 0.171875]
       (Some initial_event :: map (fun i => Some (rattle_event i)) (seq 0 11)))
    11%Z 0.171875.

(** The value of a computation that returns, [d] otherwise. *)
Definition returned {A : Type} (r : result A) (d : A) : A :=
  match r with
  | Ok a => a
  | _ => d
  end.

(** [bounce_shot] and [two_ball_shot] at the head of the loop of [simulate]
    and after its first iteration. *)
Definition bounce_started : Shot :=
  returned (sys0 <- touch_history bounce_shot ;; timestamp sys0 0 (Some initial_event))
    bounce_shot.



Definition two_ball_started : Shot :=
  returned (sys0 <- touch_history two_ball_shot ;; timestamp sys0 0 (Some initial_event))
    two_ball_shot.

Definition two_ball_after_1 : Shot * Event :=
  returned (iteration two_ball_started) (two_ball_started, initial_event).

(** [two_ball_shot] after the [touch_history] of [simulate]. *)
Definition two_ball_touched : Shot := returned (touch_history two_ball_shot) two_ball_shot.

(** What [simulate()] leaves of [rest_shot], [simulate(time=2)] of
    [bounce_shot] and [continuize(dt=0.75)] of [bounce_recorded]. *)
Definition rest_simulated : Shot := returned (simulate 1 None rest_shot) rest_shot.

Definition bounce_simulated : Shot := returned (simulate 2 (Some 2) bounce_shot) bounce_shot.

Definition bounce_resampled : Shot :=
  returned (continuize 2 bounce_recorded 0.75) bounce_recorded.

(** ** The rest of [ShotHistory] and [ShotSimulation] *)

Local Open Scope float_scope.

(** [get_time_history()]. *)
Definition get_time_history (sys : Shot) : list float := h_time (history sys).

(** [get_ball_state_history(ball_id)] and [get_ball_rvw_history(ball_id)],
    through [_get_ball_var_history]: [history['balls'][ball_id][key]]. *)
Definition get_ball_state_history (sys : Shot) (ball_id : ident) : result (list motion_state) :=
  e <- dict_get (Some ball_id) (h_balls (history sys)) ;;
  Ok (h_s e).

Definition get_ball_rvw_history (sys : Shot) (ball_id : ident) : result (list RVW) :=
  e <- dict_get (Some ball_id) (h_balls (history sys)) ;;
  Ok (h_rvw e).

(** [ball_id in event.agents]. *)
Definition agent_is (ball_id : ident) (a : option ident) : bool :=
  match a with
  | Some k => String.eqb ball_id k
  | None => false
  end.

(** [[event for event in self.history['event'] if ball_id in event.agents]]:
    a logged [None] has no attribute [agents]. *)
Fixpoint event_history_loop (ball_id : ident) (evs : list (option Event))
  : result (list Event) :=
  match evs with
  | [] => Ok []
  | None :: _ => Raise AttributeError
  | Some event :: evs' =>
      let keep := existsb (agent_is ball_id) (agents event) in
      rest <- event_history_loop ball_id evs' ;;
      Ok (if keep then event :: rest else rest)
  end.

Definition get_event_history_for_ball (sys : Shot) (ball_id : ident) : result (list Event) :=
  event_history_loop ball_id (h_event (history sys)).

(** [set_cue] stores an object the engine never reads; [set_table] and
    [set_balls] replace the table and the balls and nothing else. *)
Definition set_table (sys : Shot) (t : TableT) : Shot :=
  mkShot (balls sys) t (g sys) (vectorized sys) (history sys) (n sys) (time sys).

Definition set_balls (sys : Shot) (bs : list (ident * Ball)) : Shot := with_balls sys bs.

Section Overlap.

(** Modelled from the spec: [physics.is_overlapping(rvw1, rvw2, R1, R2)] is
    not among the sources; it is a parameter. *)
Variable is_overlapping : RVW -> RVW -> float -> float -> bool.




End Overlap.

(** ** More vocabulary *)

(** A candidate of a generator: a time and what is reported with it. *)
Definition pick {P : Type} (acc c : float * P) : float * P :=
  if fst c <? fst acc then c else acc.

(** [best] is the first strict minimum of [cands] below [init], or [init]
    when no candidate is below it. *)
Definition first_minimum {P : Type} (init : float * P) (cands : list (float * P))
  (best : float * P) : Prop :=
  (best = init /\ forall c, In c cands -> (fst c <? fst init) = false) \/
  (exists l1 l2,
     cands = (l1 ++ best :: l2)%list /\
     (fst best <? fst init) = true /\
     (forall c, In c l1 -> (fst c <=? fst best) = false) /\
     (forall c, In c l2 -> (fst c <? fst best) = false)).

(** The dictionary's keys are pairwise different. *)
Definition unique_keys {A : Type} (d : list (ident * A)) : Prop := NoDup (dict_keys d).

(** [self.balls] is keyed by [ball.id], [self.table.rails] by [rail.id]. *)
Definition keyed_by_id (sys : Shot) : Prop :=
  Forall (fun kb => fst kb = ball_id (snd kb)) (balls sys) /\
  Forall (fun kr => fst kr = rail_id (snd kr)) (rails (table sys)).

(** The history lists are in step: [n + 1] samples in each of them, the
    entries of the balls of the shot included. *)
Definition aligned (sys : Shot) : Prop :=
  (-1 <= n sys)%Z /\
  let len := Z.to_nat (n sys + 1) in
  List.length (h_index (history sys)) = len /\
  List.length (h_time (history sys)) = len /\
  List.length (h_event (history sys)) = len /\
  forall k, In k (dict_keys (balls sys)) ->
    exists e, dict_find k (h_balls (history sys)) = Some e /\
      List.length (h_s e) = len /\ List.length (h_rvw e) = len.

(** The indices a Python sequence of length [len] accepts. *)
Definition in_bounds (index len : Z) : Prop := (- len <= index < len)%Z.

(** The last sample of every ball is its current state. *)
Definition last_logged (sys : Shot) : Prop :=
  forall k b, dict_find k (balls sys) = Some b ->
    exists e ss rs, dict_find k (h_balls (history sys)) = Some e /\
      h_s e = (ss ++ [ball_s b])%list /\ h_rvw e = (rs ++ [ball_rvw b])%list.

(** A history without samples. *)
Definition blank (sys : Shot) : Prop :=
  n sys = (-1)%Z /\ h_index (history sys) = [] /\ h_time (history sys) = [] /\
  h_event (history sys) = [] /\
  forall k e, dict_find k (h_balls (history sys)) = Some e -> e = mkBallHistory [] [].

(** [history['index']] is [0, 1, ..., n]. *)
Definition index_range (sys : Shot) : Prop :=
  h_index (history sys) = map Z.of_nat (seq 0 (Z.to_nat (n sys + 1))).

(** A history under construction: lists, in step, indexed [0 .. n], for a
    dictionary of balls. *)
Definition recording (sys : Shot) : Prop :=
  vectorized sys = false /\ unique_keys (balls sys) /\ aligned sys /\ index_range sys.

(** The last logged time is the current time. *)
Definition last_time (sys : Shot) : Prop :=
  exists ts, h_time (history sys) = (ts ++ [time sys])%list.

(** A history as [continuize] builds it: in step, indexed [0 .. n], no event
    logged with any sample, the first sample at time 0. *)
Definition resampled (sys : Shot) : Prop :=
  aligned sys /\ index_range sys /\ (0 <= n sys)%Z /\
  h_event (history sys) = repeat None (Z.to_nat (n sys + 1)) /\
  hd_error (h_time (history sys)) = Some 0.

(** [aligned], decided. *)
Definition alignedb (sys : Shot) : bool :=
  let len := Z.to_nat (n sys + 1) in
  (-1 <=? n sys)%Z &&
  Nat.eqb (List.length (h_index (history sys))) len &&
  Nat.eqb (List.length (h_time (history sys))) len &&
  Nat.eqb (List.length (h_event (history sys))) len &&
  forallb
    (fun k =>
       match dict_find k (h_balls (history sys)) with
       | Some e => Nat.eqb (List.length (h_s e)) len && Nat.eqb (List.length (h_rvw e)) len
       | None => false
       end)
    (dict_keys (balls sys)).

(** The loop of [get_min_motion_event_time] meets a ball in none of the four
    states before any rolling, sliding or spinning ball: [tau] is read before
    it was ever assigned. *)
Fixpoint hits_unbound (bs : list Ball) : bool :=
  match bs with
  | [] => false
  | b :: bs' =>
      match ball_s b with
      | stationary => hits_unbound bs'
      | rolling | sliding | spinning => false
      | _ => true
      end
  end.

(** What the loop of [get_min_motion_event_time] returns, as a candidate. *)
Definition motion_best (acc : motion_acc) : float * (option ident * option event_kind) :=
  (m_tau_min acc, (m_ball_id acc, m_event_type_min acc)).

(** The transition the motion generator reports for a state. *)
Definition transition_of (s : motion_state) : option event_kind :=
  match s with
  | rolling => Some end_roll
  | sliding => Some end_slide
  | spinning => Some end_spin
  | _ => None
  end.

(** An event as [get_next_event] builds it: no type, no agent and [np.inf],
    or a type with a time below [np.inf] and the ids of the ball(s) and rail
    it is about. *)
Definition well_formed (sys : Shot) (ev : Event) : Prop :=
  match event_type ev with
  | None => agents ev = [] /\ tau ev = infinity
  | Some ball_ball =>
      (tau ev <? infinity) = true /\
      exists i j b1 b2, (i < j)%nat /\
        nth_error (dict_values (balls sys)) i = Some b1 /\
        nth_error (dict_values (balls sys)) j = Some b2 /\
        agents ev = [Some (ball_id b1); Some (ball_id b2)]
  | Some ball_rail =>
      (tau ev <? infinity) = true /\
      exists b r, In b (dict_values (balls sys)) /\ In r (dict_values (rails (table sys))) /\
        ball_s b <> stationary /\
        agents ev = [Some (ball_id b); Some (rail_id r)]
  | Some kind =>
      (tau ev <? infinity) = true /\
      exists b, In b (dict_values (balls sys)) /\ transition_of (ball_s b) = Some kind /\
        agents ev = [Some (ball_id b)]
  end.

Section MoreSimulation.

Context {phys : Physics}.

(** What the three generators compare, per ball or pair. *)
Definition motion_candidates (sys : Shot) (bs : list Ball)
  : list (float * (option ident * option event_kind)) :=
  flat_map
    (fun ball =>
       match ball_s ball with
       | rolling =>
           [(get_roll_time (ball_rvw ball) (u_r (table sys)) (g sys),
             (Some (ball_id ball), Some end_roll))]
       | sliding =>
           [(get_slide_time (ball_rvw ball) (ball_R ball) (u_s (table sys)) (g sys),
             (Some (ball_id ball), Some end_slide))]
       | spinning =>
           [(get_spin_time (ball_rvw ball) (ball_R ball) (u_sp (table sys)) (g sys),
             (Some (ball_id ball), Some end_spin))]
       | _ => []
       end)
    bs.

Definition ball_ball_candidate (sys : Shot) (p : (nat * Ball) * (nat * Ball))
  : float * list (option ident) :=
  let ball1 := snd (fst p) in
  let ball2 := snd (snd p) in
  (get_ball_ball_collision_time (ball_rvw ball1) (ball_rvw ball2) (ball_s ball1) (ball_s ball2)
     (mu_of sys ball1) (mu_of sys ball2) (ball_m ball1) (ball_m ball2) (g sys) (ball_R ball1),
   [Some (ball_id ball1); Some (ball_id ball2)]).

Definition ball_rail_candidate (sys : Shot) (p : (nat * Ball) * (nat * Rail))
  : float * list (option ident) :=
  let ball := snd (fst p) in
  let rail := snd (snd p) in
  (get_ball_rail_collision_time (ball_rvw ball) (ball_s ball)
     (rail_lx rail) (rail_ly rail) (rail_l0 rail)
     (mu_of sys ball) (ball_m ball) (g sys) (ball_R ball),
   [Some (ball_id ball); Some (rail_id rail)]).

End MoreSimulation.

End Engine.

(** * Properties *)

(** ** The order of binary64 values

    [<?], [<=?] and [=?] are IEEE comparisons: every comparison with a NaN
    is false, and on the other values they form a total preorder (the two
    zeros are equal).  The facts are derived from the specification of the
    primitive comparisons ([SFcompare]). *)

Module FloatOrder.

Local Open Scope float_scope.

Ltac sf_cases :=
  repeat match goal with
  | b : bool |- _ => destruct b
  | |- context [Z.compare ?a ?b] => destruct (Z.compare_spec a b)
  | H : context [Z.compare ?a ?b] |- _ => destruct (Z.compare_spec a b)
  | |- context [Pos.compare_cont Eq ?a ?b] =>
      change (Pos.compare_cont Eq a b) with (Pos.compare a b);
      destruct (Pos.compare_spec a b)
  | H : context [Pos.compare_cont Eq ?a ?b] |- _ =>
      change (Pos.compare_cont Eq a b) with (Pos.compare a b) in H;
      destruct (Pos.compare_spec a b)
  end; simpl in *; try congruence; try lia.

Ltac sf_destruct3 x y z :=
  destruct x as [? | ? | | ? ? ?], y as [? | ? | | ? ? ?], z as [? | ? | | ? ? ?];
  simpl; intros; try congruence; sf_cases.

Lemma SFcompare_antisym (x y : spec_float) :
  SFcompare y x = option_map CompOpp (SFcompare x y).
Proof.
  destruct x as [sx | sx | | sx mx ex], y as [sy | sy | | sy my ey]; simpl;
    try reflexivity; sf_cases.
Qed.

Lemma SFcompare_lt_trans (x y z : spec_float) :
  SFcompare x y = Some Lt -> SFcompare y z = Some Lt -> SFcompare x z = Some Lt.
Proof. sf_destruct3 x y z. Qed.

Lemma SFcompare_lt_eq_trans (x y z : spec_float) :
  SFcompare x y = Some Lt -> SFcompare y z = Some Eq -> SFcompare x z = Some Lt.
Proof. sf_destruct3 x y z. Qed.

Lemma SFcompare_refl (x : spec_float) :
  SFcompare x x = None \/ SFcompare x x = Some Eq.
Proof.
  destruct x as [s | s | | s m e]; simpl; auto; destruct s; auto;
    rewrite Z.compare_refl; change (Pos.compare_cont Eq m m) with (Pos.compare m m);
    rewrite Pos.compare_refl; auto.
Qed.

Lemma SFcompare_some_l (x y : spec_float) c :
  SFcompare x y = Some c -> SFcompare x x = Some Eq.
Proof.
  intros H. destruct (SFcompare_refl x) as [Hn | ?]; [| assumption].
  destruct x; simpl in *; congruence.
Qed.

Lemma SFcompare_total (x y : spec_float) :
  SFcompare x x = Some Eq -> SFcompare y y = Some Eq -> exists c, SFcompare x y = Some c.
Proof.
  destruct x as [sx | sx | | sx mx ex], y as [sy | sy | | sy my ey]; simpl;
    intros; try congruence; eauto.
Qed.

Ltac to_spec :=
  unfold is_number in *;
  repeat rewrite ?FloatAxioms.ltb_spec, ?FloatAxioms.leb_spec, ?FloatAxioms.eqb_spec in *;
  unfold SFltb, SFleb, SFeqb in *.

Lemma ltb_number_l x y : (x <? y) = true -> is_number x.
Proof.
  to_spec. destruct (SFcompare (Prim2SF x) (Prim2SF y)) as [c |] eqn:E; [| discriminate].
  intros _. now rewrite (SFcompare_some_l _ _ _ E).
Qed.

Lemma infinity_number : is_number infinity.
Proof. reflexivity. Qed.

Lemma leb_refl x : is_number x -> (x <=? x) = true.
Proof. to_spec. destruct (SFcompare _ _) as [[] |]; congruence. Qed.

Lemma ltb_leb x y : (x <? y) = true -> (x <=? y) = true.
Proof. to_spec. destruct (SFcompare _ _) as [[] |]; congruence. Qed.

Lemma eqb_leb x y : (x =? y) = true -> (x <=? y) = true.
Proof. to_spec. destruct (SFcompare _ _) as [[] |]; congruence. Qed.

(** Among numbers, "not smaller" is "greater or equal". *)
Lemma ltb_false_leb x y :
  is_number x -> is_number y -> (x <? y) = false -> (y <=? x) = true.
Proof.
  to_spec. intros Hx Hy.
  rewrite (SFcompare_antisym (Prim2SF x) (Prim2SF y)).
  destruct (SFcompare (Prim2SF x) (Prim2SF x)) as [[] |] eqn:Ex; try discriminate.
  destruct (SFcompare (Prim2SF y) (Prim2SF y)) as [[] |] eqn:Ey; try discriminate.
  destruct (SFcompare_total _ _ Ex Ey) as [c ->]. destruct c; simpl; congruence.
Qed.

Lemma leb_ltb_false x y : (x <=? y) = true -> (y <? x) = false.
Proof.
  to_spec. rewrite (SFcompare_antisym (Prim2SF x) (Prim2SF y)).
  destruct (SFcompare _ _) as [[] |]; simpl; congruence.
Qed.

Lemma eqb_ltb_false x y : (x =? y) = true -> (y <? x) = false.
Proof. intros H. apply leb_ltb_false, eqb_leb, H. Qed.

Lemma ltb_leb_trans x y z : (x <? y) = true -> (y <=? z) = true -> (x <? z) = true.
Proof.
  to_spec.
  destruct (SFcompare (Prim2SF x) (Prim2SF y)) as [[] |] eqn:E1; try discriminate.
  destruct (SFcompare (Prim2SF y) (Prim2SF z)) as [[] |] eqn:E2; try discriminate; intros _ _.
  - now rewrite (SFcompare_lt_eq_trans _ _ _ E1 E2).
  - now rewrite (SFcompare_lt_trans _ _ _ E1 E2).
Qed.

(** [np.inf] is the greatest number. *)
Lemma leb_infinity x : is_number x -> (x <=? infinity) = true.
Proof.
  to_spec. change (Prim2SF infinity) with (S754_infinity false).
  destruct (Prim2SF x) as [s | s | | s m e]; simpl; try congruence; destruct s; auto.
Qed.

End FloatOrder.

(** ** The cushion *)

Module CushionFacts.

Import Table.

Local Open Scope R_scope.




(** C8.  Construction from two boundary points raises [ValueError] exactly
    when their z coordinates differ, and succeeds exactly when they are
    equal; the cushion's [height] is then that common z coordinate. *)
Theorem Cushion_init_height_validation
  (cushion_id : ident) (p1x p1y p1z p2x p2y p2z : R) :
  let r := Cushion_init cushion_id (p1x, p1y, p1z) (p2x, p2y, p2z) in
  (p1z <> p2z <-> r = Raise ValueError) /\
  (p1z = p2z <-> exists k, r = Ok k) /\
  (forall k, r = Ok k -> height k = p1z /\ height k = p2z).
Proof.
  unfold Cushion_init.
  destruct (Req_dec_T p1z p2z) as [Hz | Hz];
    [destruct (Req_dec_T (p2x - p1x) 0) as [Hx | Hx] |]; simpl.
  - split; [split; [tauto | discriminate] |].
    split; [split; eauto |]. intros k [= <-]. simpl. auto.
  - split; [split; [tauto | discriminate] |].
    split; [split; eauto |]. intros k [= <-]. simpl. auto.
  - split; [tauto |]. split; [| discriminate].
    split; [tauto |]. intros [k Hk]. discriminate.
Qed.



End CushionFacts.

(** ** The engine *)

Module EngineFacts.

Import Engine FloatOrder.

Local Open Scope float_scope.

(** *** Dictionaries *)

Lemma dict_find_update_ne {A : Type} (k k' : ident) (f : A -> A) (d : list (ident * A)) :
  k <> k' -> dict_find k (dict_update k' f d) = dict_find k d.
Proof.
  intros Hne. induction d as [| [k0 a] d IH]; simpl; [reflexivity |].
  destruct (String.eqb k' k0) eqn:E'; simpl.
  - apply String.eqb_eq in E'. subst k0.
    destruct (String.eqb k k') eqn:E; [apply String.eqb_eq in E; contradiction | reflexivity].
  - destruct (String.eqb k k0); [reflexivity | exact IH].
Qed.

Lemma dict_find_update_eq {A : Type} (k : ident) (f : A -> A) (d : list (ident * A)) :
  dict_find k (dict_update k f d) = option_map f (dict_find k d).
Proof.
  induction d as [| [k0 a] d IH]; simpl; [reflexivity |].
  destruct (String.eqb k k0) eqn:E; simpl; rewrite E; [reflexivity | exact IH].
Qed.

Lemma dict_keys_update {A : Type} (k : ident) (f : A -> A) (d : list (ident * A)) :
  dict_keys (dict_update k f d) = dict_keys d.
Proof.
  unfold dict_keys. induction d as [| [k0 a] d IH]; simpl; [reflexivity |].
  destruct (String.eqb k k0); simpl; [reflexivity | now rewrite IH].
Qed.

Lemma fold_left_invariant {A B : Type} (P : A -> Prop) (f : A -> B -> A) (l : list B) (a : A) :
  (forall a b, P a -> P (f a b)) -> P a -> P (fold_left f l a).
Proof. intros Hf. revert a. induction l as [| b l IH]; simpl; auto. Qed.

Section Facts.

Context {phys : Physics}.

(** *** The generators report [np.inf] or a number below it, never a NaN *)

Lemma reported_number (x : float) : reported x -> is_number x.
Proof. intros [-> | H]; [exact infinity_number | exact (ltb_number_l _ _ H)]. Qed.

Lemma reported_infinity : reported infinity.
Proof. now left. Qed.

Lemma reported_below (x y : float) : (x <? y) = true -> reported y -> reported x.
Proof.
  intros H [-> | Hy]; right; [exact H |].
  apply (ltb_leb_trans _ _ _ H). now apply ltb_leb.
Qed.

Lemma reported_not_below (x : float) : reported x -> (x <? infinity) = false -> x = infinity.
Proof. intros [-> | H] H'; [reflexivity | congruence]. Qed.

Lemma motion_compare_reported (acc : motion_acc) (ball : Ball) (t : float) (e : event_kind) :
  reported (m_tau_min acc) -> reported (m_tau_min (motion_compare acc ball t e)).
Proof.
  intros H. unfold motion_compare. destruct (t <? m_tau_min acc) eqn:E; simpl; [| exact H].
  exact (reported_below _ _ E H).
Qed.

Lemma motion_loop_reported (sys : Shot) (bs : list Ball) (acc acc' : motion_acc) :
  motion_loop sys bs acc = Ok acc' -> reported (m_tau_min acc) -> reported (m_tau_min acc').
Proof.
  revert acc. induction bs as [| b bs IH]; simpl; intros acc H Hn.
  - now inversion H; subst.
  - destruct (motion_step sys acc b) as [acc1 | |] eqn:E; simpl in H; try discriminate.
    apply (IH _ H). unfold motion_step in E.
    destruct (ball_s b); try (inversion E; subst; auto using motion_compare_reported; fail);
      destruct (m_last acc) as [[t e] |]; inversion E; subst; auto using motion_compare_reported.
Qed.

Lemma get_min_motion_event_time_reported (sys : Shot) t ids e :
  get_min_motion_event_time sys = Ok (t, ids, e) -> reported t.
Proof.
  unfold get_min_motion_event_time.
  destruct (motion_loop _ _ _) as [acc | |] eqn:E; simpl; try discriminate.
  intros [= <- _ _]. apply (motion_loop_reported _ _ _ _ E). exact reported_infinity.
Qed.

Lemma get_min_ball_ball_event_time_reported (sys : Shot) :
  reported (fst (get_min_ball_ball_event_time sys)).
Proof.
  unfold get_min_ball_ball_event_time, ball_ball_loop.
  apply fold_left_invariant; [| exact reported_infinity].
  intros a ib1 Ha. apply fold_left_invariant; [| exact Ha].
  intros a' ib2 Ha'. destruct (_ <=? _)%nat; [exact Ha' |].
  destruct (_ && _); [exact Ha' |].
  unfold ball_ball_body. destruct (_ <? fst a') eqn:E; [| exact Ha'].
  exact (reported_below _ _ E Ha').
Qed.

Lemma get_min_ball_rail_event_time_reported (sys : Shot) :
  reported (fst (get_min_ball_rail_event_time sys)).
Proof.
  unfold get_min_ball_rail_event_time, ball_rail_loop.
  apply fold_left_invariant; [| exact reported_infinity].
  intros a ib Ha. destruct (is_stationary _); [exact Ha |].
  apply fold_left_invariant; [| exact Ha].
  intros a' ir Ha'. unfold ball_rail_body. destruct (_ <? fst a') eqn:E; [| exact Ha'].
  exact (reported_below _ _ E Ha').
Qed.

(** *** C1: the next event *)

Lemma motion_loop_returns (sys : Shot) (bs : list Ball) (acc : motion_acc) :
  Forall (fun b => dispatched (ball_s b) = true) bs ->
  exists acc', motion_loop sys bs acc = Ok acc'.
Proof.
  intros H. revert acc. induction H as [| b bs Hb _ IH]; intros acc; simpl; [eauto |].
  unfold motion_step. destruct (ball_s b); try discriminate; simpl; apply IH.
Qed.

(** C1.  Let [tm], [tb], [tr] be the times reported by the motion, ball-ball
    and ball-rail generators.  [get_next_event] returns an event whose [tau]
    is one of them and is below or equal to all three.  On a tie at a finite
    minimum the earlier generator wins: motion over ball-ball and over
    ball-rail, ball-ball over ball-rail.  The motion generator, and with it
    [get_next_event], returns whenever every ball is in one of the four
    states it dispatches on. *)
Theorem get_next_event_minimum_and_tie_break (sys : Shot) :
  (Forall (fun b => dispatched (ball_s b) = true) (dict_values (balls sys)) ->
   exists ev, get_next_event sys = Ok ev) /\
  forall (tm tb tr : float) (idm idb idr : list (option ident)) (em : option event_kind),
    get_min_motion_event_time sys = Ok (tm, idm, em) ->
    get_min_ball_ball_event_time sys = (tb, idb) ->
    get_min_ball_rail_event_time sys = (tr, idr) ->
    exists ev, get_next_event sys = Ok ev /\
      ((tau ev <=? tm) = true /\ (tau ev <=? tb) = true /\ (tau ev <=? tr) = true) /\
      (tau ev = tm \/ tau ev = tb \/ tau ev = tr) /\
      ((tm =? tb) = true -> (tm <? infinity) = true -> (tm <=? tr) = true ->
       ev = mkEvent em idm tm) /\
      ((tm =? tr) = true -> (tm <? infinity) = true -> (tm <=? tb) = true ->
       ev = mkEvent em idm tm) /\
      ((tb =? tr) = true -> (tb <? tm) = true ->
       ev = mkEvent (Some ball_ball) idb tb).
Proof.
  split.
  { intros H. unfold get_next_event, get_min_motion_event_time.
    destruct (motion_loop_returns sys _ (mkMotionAcc infinity None None None) H)
      as [acc ->]. cbn [bind].
    destruct (get_min_ball_ball_event_time sys), (get_min_ball_rail_event_time sys).
    repeat match goal with |- context [if ?c then _ else _] => destruct c end;
      eexists; reflexivity. }
  intros tm tb tr idm idb idr em Hm Hb Hr.
  pose proof (get_min_motion_event_time_reported _ _ _ _ Hm) as Rm.
  pose proof (get_min_ball_ball_event_time_reported sys) as Rb. rewrite Hb in Rb. simpl in Rb.
  pose proof (get_min_ball_rail_event_time_reported sys) as Rr. rewrite Hr in Rr. simpl in Rr.
  pose proof (reported_number _ Rm) as Nm.
  pose proof (reported_number _ Rb) as Nb.
  pose proof (reported_number _ Rr) as Nr.
  unfold get_next_event. rewrite Hm, Hb, Hr. simpl.
  pose proof (leb_infinity _ Nm) as Lm.
  pose proof (leb_infinity _ Nb) as Lb.
  pose proof (leb_infinity _ Nr) as Lr.
  destruct (tm <? infinity) eqn:E1.
  - destruct (tb <? tm) eqn:E2.
    + destruct (tr <? tb) eqn:E3; eexists; (split; [reflexivity |]); simpl.
      * repeat split; auto using leb_refl, ltb_leb.
        -- apply ltb_leb. apply (ltb_leb_trans _ _ _ E3). now apply ltb_leb.
        -- intros H. apply eqb_ltb_false in H. congruence.
        -- intros H _ H'. apply leb_ltb_false in H'. congruence.
        -- intros H. apply eqb_ltb_false in H. congruence.
      * pose proof (ltb_false_leb _ _ Nr Nb E3).
        repeat split; auto using leb_refl, ltb_leb.
        -- intros H'. apply eqb_ltb_false in H'. congruence.
        -- intros _ _ H'. apply leb_ltb_false in H'. congruence.
    + pose proof (ltb_false_leb _ _ Nb Nm E2).
      destruct (tr <? tm) eqn:E3; eexists; (split; [reflexivity |]); simpl.
      * repeat split; auto using leb_refl, ltb_leb.
        -- apply ltb_leb. now apply (ltb_leb_trans _ _ _ E3).
        -- intros _ _ H'. apply leb_ltb_false in H'. congruence.
        -- intros H'. apply eqb_ltb_false in H'. congruence.
        -- intros _ H'. congruence.
      * pose proof (ltb_false_leb _ _ Nr Nm E3).
        repeat split; auto using leb_refl.
        intros _ H'. congruence.
  - destruct (tb <? infinity) eqn:E2.
    + pose proof (ltb_false_leb _ _ Nm infinity_number E1) as Hinf.
      assert (Hbm : (tb <? tm) = true) by exact (ltb_leb_trans _ _ _ E2 Hinf).
      destruct (tr <? tb) eqn:E3; eexists; (split; [reflexivity |]); simpl.
      * repeat split; auto using leb_refl, ltb_leb; try congruence.
        -- apply ltb_leb. apply (ltb_leb_trans _ _ _ E3). now apply ltb_leb.
        -- intros H. apply eqb_ltb_false in H. congruence.
      * pose proof (ltb_false_leb _ _ Nr Nb E3).
        repeat split; auto using leb_refl, ltb_leb; congruence.
    + pose proof (ltb_false_leb _ _ Nm infinity_number E1) as Hm'.
      pose proof (ltb_false_leb _ _ Nb infinity_number E2) as Hb'.
      destruct (tr <? infinity) eqn:E3; eexists; (split; [reflexivity |]); simpl.
      * repeat split; auto using leb_refl, ltb_leb; try congruence.
        -- apply ltb_leb. exact (ltb_leb_trans _ _ _ E3 Hm').
        -- apply ltb_leb. exact (ltb_leb_trans _ _ _ E3 Hb').
        -- intros _ H'. pose proof (ltb_leb_trans _ _ _ H' Lm). congruence.
      * pose proof (ltb_false_leb _ _ Nr infinity_number E3) as Hr'.
        repeat split; auto; try congruence.
        -- left. symmetry. exact (reported_not_below _ Rm E1).
        -- intros _ H'. pose proof (ltb_leb_trans _ _ _ H' Lm). congruence.
Qed.

(** *** Frame lemmas for [resolve] and [timestamp] *)

Lemma timestamp_frame (sys sys' : Shot) (dt : float) (e : option Event) :
  timestamp sys dt e = Ok sys' ->
  balls sys' = balls sys /\ table sys' = table sys /\ g sys' = g sys /\
  vectorized sys' = false /\ vectorized sys = false /\
  n sys' = (n sys + 1)%Z /\ time sys' = time sys + dt /\
  h_index (history sys') = h_index (history sys) ++ [(n sys + 1)%Z] /\
  h_time (history sys') = h_time (history sys) ++ [time sys + dt] /\
  h_event (history sys') = h_event (history sys) ++ [e].
Proof.
  unfold timestamp. destruct (vectorized sys) eqn:V; [discriminate |].
  destruct (log_balls _ _) as [hb | |]; simpl; try discriminate.
  intros [= <-]. simpl. repeat split; auto.
Qed.

Lemma resolve_fields (sys sys' : Shot) (ev : Event) :
  resolve sys ev = Ok sys' ->
  table sys' = table sys /\ g sys' = g sys /\ vectorized sys' = vectorized sys /\
  history sys' = history sys /\ n sys' = n sys /\ time sys' = time sys /\
  dict_keys (balls sys') = dict_keys (balls sys).
Proof.
  unfold resolve. destruct (event_type ev) as [[] |]; try (intros [= <-]; tauto).
  - destruct (agents ev) as [| k1 [| k2 [| ? ?]]]; try discriminate.
    destruct (dict_get k1 _) as [b1 | |]; simpl; try discriminate.
    destruct (dict_get k2 _) as [b2 | |]; simpl; try discriminate.
    destruct (resolve_ball_ball_collision _ _) as [r1 r2].
    destruct k1 as [k1 |], k2 as [k2 |]; try discriminate.
    intros [= <-]. simpl. rewrite !dict_keys_update. tauto.
  - destruct (agents ev) as [| k1 [| k2 [| ? ?]]]; try discriminate.
    destruct (dict_get k1 _) as [b1 | |]; simpl; try discriminate.
    destruct (dict_get k2 _) as [b2 | |]; simpl; try discriminate.
    destruct k1 as [k1 |]; try discriminate.
    intros [= <-]. simpl. rewrite !dict_keys_update. tauto.
Qed.

Lemma resolve_frame (sys sys' : Shot) (ev : Event) (k : ident) :
  resolve sys ev = Ok sys' -> ~ In (Some k) (agents ev) ->
  dict_find k (balls sys') = dict_find k (balls sys).
Proof.
  unfold resolve. destruct (event_type ev) as [[] |]; try (now intros [= <-]).
  - destruct (agents ev) as [| k1 [| k2 [| ? ?]]]; try discriminate.
    destruct (dict_get k1 _) as [b1 | |]; simpl; try discriminate.
    destruct (dict_get k2 _) as [b2 | |]; simpl; try discriminate.
    destruct (resolve_ball_ball_collision _ _) as [r1 r2].
    destruct k1 as [k1 |], k2 as [k2 |]; try discriminate.
    intros [= <-] Hk. simpl.
    rewrite !dict_find_update_ne; [reflexivity | |]; intros ->; apply Hk; simpl; auto.
  - destruct (agents ev) as [| k1 [| k2 [| ? ?]]]; try discriminate.
    destruct (dict_get k1 _) as [b1 | |]; simpl; try discriminate.
    destruct (dict_get k2 _) as [b2 | |]; simpl; try discriminate.
    destruct k1 as [k1 |]; try discriminate.
    intros [= <-] Hk. simpl.
    rewrite dict_find_update_ne; [reflexivity |]. intros ->; apply Hk; simpl; auto.
Qed.

Lemma dict_find_evolve_balls (sys : Shot) (dt : float) (k : ident) :
  dict_find k (evolve_balls sys dt) = option_map (evolve_ball sys dt) (dict_find k (balls sys)).
Proof.
  unfold evolve_balls. induction (balls sys) as [| [k0 b] d IH]; simpl; [reflexivity |].
  destruct (String.eqb k k0); [reflexivity | exact IH].
Qed.

(** *** C2: every ball is advanced by [tau] before the event is resolved *)

(** C2.  One iteration of the main loop selects the event [ev], replaces
    every ball of the shot, agent or not, by the ball advanced by [tau ev]
    under its current state, and only then resolves [ev] and logs the
    sample.  A ball that is not an agent of [ev] ends the iteration in
    exactly that advanced state. *)
Theorem iteration_evolves_every_ball (sys sys' : Shot) (ev : Event) :
  iteration sys = Ok (sys', ev) ->
  get_next_event sys = Ok ev /\
  (exists sys2,
     resolve (with_balls sys (evolve_balls sys (tau ev))) ev = Ok sys2 /\
     timestamp sys2 (tau ev) (Some ev) = Ok sys') /\
  (forall i k b,
     nth_error (balls sys) i = Some (k, b) ->
     nth_error (evolve_balls sys (tau ev)) i =
       Some (k,
             ball_set b
               (fst (evolve_ball_motion (ball_s b) (ball_rvw b) (ball_R b) (ball_m b)
                       (u_s (table sys)) (u_sp (table sys)) (u_r (table sys)) (g sys) (tau ev)))
               (snd (evolve_ball_motion (ball_s b) (ball_rvw b) (ball_R b) (ball_m b)
                       (u_s (table sys)) (u_sp (table sys)) (u_r (table sys)) (g sys) (tau ev))))) /\
  (forall k b,
     dict_find k (balls sys) = Some b -> ~ In (Some k) (agents ev) ->
     dict_find k (balls sys') = Some (evolve_ball sys (tau ev) b)) /\
  (forall fuel time_bound ev0,
     (tau ev0 <? infinity) = true ->
     simulate_loop (S fuel) time_bound sys ev0 =
       if bound_reached time_bound sys' then Ok sys'
       else simulate_loop fuel time_bound sys' ev).
Proof.
  unfold iteration. intros H.
  destruct (get_next_event sys) as [ev1 | |] eqn:Hev; simpl in H; try discriminate.
  unfold evolve in H.
  destruct (resolve _ ev1) as [sys2 | |] eqn:Hres; simpl in H; try discriminate.
  destruct (timestamp sys2 _ _) as [sys3 | |] eqn:Hts; simpl in H; try discriminate.
  inversion H; subst sys3 ev1; clear H.
  split; [reflexivity |]. split; [eauto |]. split; [| split].
  - intros i k b Hi. unfold evolve_balls. rewrite nth_error_map, Hi. simpl.
    unfold evolve_ball. now destruct (evolve_ball_motion _ _ _ _ _ _ _ _ _).
  - intros k b Hk Hna.
    destruct (timestamp_frame _ _ _ _ Hts) as (-> & _).
    rewrite (resolve_frame _ _ _ _ Hres Hna). simpl.
    now rewrite dict_find_evolve_balls, Hk.
  - intros fuel tb ev0 Hlt. simpl. rewrite Hlt. unfold iteration, evolve.
    rewrite Hev. simpl. rewrite Hres. simpl. rewrite Hts. reflexivity.
Qed.

(** *** When the history has an entry for every ball, logging succeeds *)

Lemma dict_find_None_iff {A : Type} (k : ident) (d : list (ident * A)) :
  dict_find k d = None <-> ~ In k (dict_keys d).
Proof.
  unfold dict_keys. induction d as [| [k0 a] d IH]; simpl; [tauto |].
  destruct (String.eqb k k0) eqn:E.
  - apply String.eqb_eq in E. subst. split; [discriminate | intros H; exfalso; auto].
  - apply String.eqb_neq in E. rewrite IH. split; [intros H [? | ?]; auto | auto].
Qed.

Lemma dict_keys_app {A : Type} (d d' : list (ident * A)) :
  dict_keys (d ++ d') = dict_keys d ++ dict_keys d'.
Proof. unfold dict_keys. apply map_app. Qed.

Lemma same_but_ball_history_refl (sys : Shot) : same_but_ball_history sys sys.
Proof. unfold same_but_ball_history. tauto. Qed.

Lemma same_but_ball_history_trans (s1 s2 s3 : Shot) :
  same_but_ball_history s1 s2 -> same_but_ball_history s2 s3 -> same_but_ball_history s1 s3.
Proof.
  unfold same_but_ball_history.
  intros (? & ? & ? & ? & ? & ? & ? & ? & ?) (? & ? & ? & ? & ? & ? & ? & ? & ?).
  repeat split; congruence.
Qed.

Lemma init_ball_history_ok (sys : Shot) (k : ident) :
  In k (dict_keys (balls sys)) ->
  exists sys', init_ball_history sys k = Ok sys' /\ same_but_ball_history sys sys' /\
    incl (k :: dict_keys (h_balls (history sys))) (dict_keys (h_balls (history sys'))).
Proof.
  intros Hk. unfold init_ball_history.
  destruct (dict_find k (balls sys)) eqn:E;
    [| apply dict_find_None_iff in E; contradiction].
  eexists. split; [reflexivity |]. split; [unfold same_but_ball_history; simpl; tauto |].
  simpl. destruct (dict_find k (h_balls (history sys))) eqn:E'.
  - rewrite dict_keys_update. intros x [Hx | Hx]; [subst x | exact Hx].
    destruct (in_dec string_dec k (dict_keys (h_balls (history sys)))) as [H | H];
      [exact H | apply dict_find_None_iff in H; congruence].
  - rewrite dict_keys_app. simpl. intros x [Hx | Hx]; apply in_or_app; simpl; auto.
Qed.

Lemma touch_history_loop_ok (ids : list ident) (sys : Shot) :
  incl ids (dict_keys (balls sys)) ->
  exists sys', touch_history_loop ids sys = Ok sys' /\ same_but_ball_history sys sys' /\
    incl (ids ++ dict_keys (h_balls (history sys))) (dict_keys (h_balls (history sys'))).
Proof.
  revert sys. induction ids as [| k ids IH]; intros sys Hin; simpl.
  - exists sys. split; [reflexivity |]. split; [apply same_but_ball_history_refl |].
    apply incl_refl.
  - assert (Hk : In k (dict_keys (balls sys))) by (apply Hin; simpl; auto).
    assert (Hids : incl ids (dict_keys (balls sys))) by (intros x Hx; apply Hin; simpl; auto).
    destruct (dict_find k (h_balls (history sys))) eqn:E.
    + destruct (IH sys Hids) as (sys' & H1 & H2 & H3).
      exists sys'. split; [exact H1 |]. split; [exact H2 |].
      intros x [Hx | Hx]; apply H3; [subst x; apply in_or_app; right | exact Hx].
      destruct (in_dec string_dec k (dict_keys (h_balls (history sys)))) as [H | H];
        [exact H | apply dict_find_None_iff in H; congruence].
    + destruct (init_ball_history_ok sys k Hk) as (sys1 & H1 & H2 & H3).
      rewrite H1. simpl.
      assert (Hids1 : incl ids (dict_keys (balls sys1))).
      { destruct H2 as (-> & _). exact Hids. }
      destruct (IH sys1 Hids1) as (sys' & H4 & H5 & H6).
      exists sys'. split; [exact H4 |].
      split; [exact (same_but_ball_history_trans _ _ _ H2 H5) |].
      intros x [Hx | Hx]; apply H6; apply in_or_app.
      * right. apply H3. simpl. auto.
      * apply in_app_or in Hx. destruct Hx as [Hx | Hx]; [left; exact Hx |].
        right. apply H3. simpl. auto.
Qed.

Lemma touch_history_ok (sys : Shot) :
  exists sys', touch_history sys = Ok sys' /\ same_but_ball_history sys sys' /\ covered sys'.
Proof.
  destruct (touch_history_loop_ok (dict_keys (balls sys)) sys (incl_refl _))
    as (sys' & H1 & H2 & H3).
  exists sys'. split; [exact H1 |]. split; [exact H2 |].
  unfold covered. destruct H2 as (-> & _).
  intros x Hx. apply H3. apply in_or_app. auto.
Qed.

Lemma log_balls_ok (bs : list (ident * Ball)) (hb : list (ident * BallHistory)) :
  incl (dict_keys bs) (dict_keys hb) ->
  exists hb', log_balls bs hb = Ok hb' /\ dict_keys hb' = dict_keys hb.
Proof.
  revert hb. induction bs as [| [k b] bs IH]; intros hb Hin; simpl.
  - eauto.
  - destruct (dict_find k hb) eqn:E.
    + destruct (IH (dict_update k
                      (fun e => mkBallHistory (h_s e ++ [ball_s b]) (h_rvw e ++ [ball_rvw b]))
                      hb)) as (hb' & H1 & H2).
      { rewrite dict_keys_update. intros x Hx. apply Hin. simpl. auto. }
      exists hb'. split; [exact H1 |]. now rewrite H2, dict_keys_update.
    + apply dict_find_None_iff in E. exfalso. apply E, Hin. simpl. auto.
Qed.

Lemma timestamp_ok (sys : Shot) (dt : float) (e : option Event) :
  vectorized sys = false -> covered sys ->
  exists sys', timestamp sys dt e = Ok sys' /\ covered sys'.
Proof.
  intros V C. unfold timestamp. rewrite V.
  destruct (log_balls_ok _ _ C) as (hb' & H1 & H2). rewrite H1. simpl.
  eexists. split; [reflexivity |]. unfold covered. simpl. now rewrite H2.
Qed.

(** *** C4: a shot at rest *)

Lemma fold_left_fixed {A B : Type} (f : A -> B -> A) (l : list B) (a : A) :
  (forall b, In b l -> forall a, f a b = a) -> fold_left f l a = a.
Proof.
  induction l as [| b l IH]; simpl; intros H; [reflexivity |].
  rewrite H by auto. apply IH. auto.
Qed.

Lemma in_enumerate {A : Type} (l : list A) (i : nat) (a : A) :
  In (i, a) (enumerate l) -> In a l.
Proof. unfold enumerate. apply in_combine_r. Qed.

Lemma with_balls_same (sys : Shot) : with_balls sys (balls sys) = sys.
Proof. now destruct sys. Qed.

Lemma motion_loop_stationary (sys : Shot) (bs : list Ball) (acc : motion_acc) :
  Forall (fun b => ball_s b = stationary) bs -> motion_loop sys bs acc = Ok acc.
Proof.
  induction 1 as [| b bs Hb _ IH]; simpl; [reflexivity |].
  unfold motion_step. rewrite Hb. simpl. exact IH.
Qed.

Lemma get_next_event_stationary (sys : Shot) :
  all_stationary (balls sys) -> get_next_event sys = Ok (mkEvent None [] infinity).
Proof.
  intros H. unfold all_stationary in H. rewrite Forall_forall in H.
  assert (Hs : forall i b, In (i, b) (enumerate (dict_values (balls sys))) ->
                           is_stationary b = true).
  { intros i b Hi. unfold is_stationary. now rewrite (H b (in_enumerate _ _ _ Hi)). }
  unfold get_next_event, get_min_motion_event_time.
  rewrite motion_loop_stationary by (now apply Forall_forall). simpl.
  assert (Hb : get_min_ball_ball_event_time sys = (infinity, [])).
  { unfold get_min_ball_ball_event_time, ball_ball_loop.
    apply fold_left_fixed. intros [i b1] H1 a.
    apply fold_left_fixed. intros [j b2] H2 a'. simpl.
    rewrite (Hs _ _ H1), (Hs _ _ H2). simpl. now destruct (j <=? i)%nat. }
  assert (Hr : get_min_ball_rail_event_time sys = (infinity, [None; None])).
  { unfold get_min_ball_rail_event_time, ball_rail_loop.
    apply fold_left_fixed. intros [i b] H1 a. simpl. now rewrite (Hs _ _ H1). }
  rewrite Hb, Hr. reflexivity.
Qed.

Lemma evolve_balls_stationary (sys : Shot) (dt : float) :
  stationary_is_identity ->
  all_stationary (balls sys) -> evolve_balls sys dt = balls sys.
Proof.
  intros Hphys H. unfold evolve_balls, all_stationary, dict_values in *.
  induction (balls sys) as [| [k b] d IH]; simpl in *; [reflexivity |].
  inversion H as [| ? ? Hb Hd]; subst. rewrite (IH Hd). f_equal. f_equal.
  unfold evolve_ball. simpl in Hb. rewrite Hb, Hphys.
  destruct b; simpl in *. now subst.
Qed.

(** C4.  A shot whose balls are all stationary has the next event
    [Event(None, (), inf)].  Provided the kernel leaves a stationary ball
    unchanged ([stationary_is_identity]), [simulate], started on a history
    that is not vectorized, returns after a single iteration of its loop
    with every ball, hence every [rvw], as it was. *)
Theorem simulate_all_stationary (sys : Shot) (fuel : nat) (time_bound : option float) :
  stationary_is_identity ->
  all_stationary (balls sys) ->
  vectorized sys = false ->
  get_next_event sys = Ok (mkEvent None [] infinity) /\
  exists sys',
    simulate (S fuel) time_bound sys = Ok sys' /\
    balls sys' = balls sys /\
    h_event (history sys') =
      h_event (history sys) ++ [Some initial_event; Some (mkEvent None [] infinity)].
Proof.
  intros Hphys Hall V. split; [now apply get_next_event_stationary |].
  unfold simulate.
  destruct (touch_history_ok sys) as (sys0 & H0 & S0 & C0). rewrite H0. cbn [bind].
  destruct S0 as (B0 & _ & _ & V0 & _ & _ & _ & _ & E0).
  destruct (timestamp_ok sys0 0 (Some initial_event)) as (sys1 & H1 & C1);
    [congruence | exact C0 |].
  rewrite H1. cbn [bind].
  destruct (timestamp_frame _ _ _ _ H1) as (B1 & _ & _ & V1 & _ & _ & _ & _ & _ & E1).
  assert (Hall1 : all_stationary (balls sys1)) by now rewrite B1, B0.
  assert (Hit : exists sys2,
             iteration sys1 = Ok (sys2, mkEvent None [] infinity) /\
             balls sys2 = balls sys1 /\
             h_event (history sys2) =
               h_event (history sys1) ++ [Some (mkEvent None [] infinity)]).
  { unfold iteration. rewrite (get_next_event_stationary _ Hall1). simpl.
    unfold evolve. rewrite (evolve_balls_stationary _ _ Hphys Hall1), with_balls_same.
    simpl.
    destruct (timestamp_ok sys1 infinity (Some (mkEvent None [] infinity)) V1 C1)
      as (sys2 & H2 & _).
    rewrite H2. simpl. exists sys2. split; [reflexivity |].
    destruct (timestamp_frame _ _ _ _ H2) as (B2 & _ & _ & _ & _ & _ & _ & _ & _ & E2).
    now split. }
  destruct Hit as (sys2 & Hit & B2 & E2).
  assert (Hloop : simulate_loop (S fuel) time_bound sys1 initial_event = Ok sys2).
  { simpl. rewrite Hit. simpl.
    destruct (bound_reached time_bound sys2); [reflexivity |].
    destruct fuel; reflexivity. }
  rewrite Hloop. cbn [bind]. eexists. split; [reflexivity |]. simpl.
  split; [congruence |].
  rewrite E2, E1, E0, <- app_assoc. reflexivity.
Qed.

(** *** C5: what [resolve] changes *)

(** C5 (as amended).  [resolve] leaves every ball that is not an agent of
    the event as it was, and changes nothing but balls.  An event that is
    neither ball-ball nor ball-rail, that is the [None] event and the three
    motion transitions, changes no ball at all, its agent included.  A
    ball-ball event whose two agents are balls of the shot sets both to
    [sliding]; a ball-rail event whose agents are a ball and a rail of the
    shot sets that ball to [sliding]. *)
Theorem resolve_frame_and_sliding (sys : Shot) (ev : Event) :
  (forall sys', resolve sys ev = Ok sys' ->
     (forall k, ~ In (Some k) (agents ev) ->
        dict_find k (balls sys') = dict_find k (balls sys)) /\
     dict_keys (balls sys') = dict_keys (balls sys) /\
     table sys' = table sys /\ history sys' = history sys /\
     n sys' = n sys /\ time sys' = time sys) /\
  (event_type ev <> Some ball_ball -> event_type ev <> Some ball_rail ->
   resolve sys ev = Ok sys) /\
  (forall k1 k2 b1 b2,
     event_type ev = Some ball_ball -> agents ev = [Some k1; Some k2] ->
     dict_find k1 (balls sys) = Some b1 -> dict_find k2 (balls sys) = Some b2 ->
     exists sys' b1' b2',
       resolve sys ev = Ok sys' /\
       dict_find k1 (balls sys') = Some b1' /\ ball_s b1' = sliding /\
       dict_find k2 (balls sys') = Some b2' /\ ball_s b2' = sliding) /\
  (forall k r b rail,
     event_type ev = Some ball_rail -> agents ev = [Some k; Some r] ->
     dict_find k (balls sys) = Some b -> dict_find r (rails (table sys)) = Some rail ->
     exists sys' b',
       resolve sys ev = Ok sys' /\
       dict_find k (balls sys') = Some b' /\ ball_s b' = sliding).
Proof.
  split; [| split; [| split]].
  - intros sys' H. split; [intros k Hk; exact (resolve_frame _ _ _ _ H Hk) |].
    destruct (resolve_fields _ _ _ H) as (? & ? & ? & ? & ? & ? & ?). tauto.
  - unfold resolve. destruct (event_type ev) as [[] |]; congruence.
  - intros k1 k2 b1 b2 Ht Ha H1 H2. unfold resolve, dict_get. rewrite Ht, Ha, H1, H2. simpl.
    destruct (resolve_ball_ball_collision _ _) as [r1 r2].
    destruct (string_dec k1 k2) as [-> | Hne];
      (do 3 eexists; split; [reflexivity |]; simpl).
    + rewrite !dict_find_update_eq, H2. simpl. repeat split; reflexivity.
    + rewrite (dict_find_update_ne k1 k2) by exact Hne.
      rewrite !dict_find_update_eq, H1.
      rewrite (dict_find_update_ne k2 k1) by (intros ->; now apply Hne).
      rewrite H2. simpl. repeat split; reflexivity.
  - intros k r b rail Ht Ha H1 H2. unfold resolve, dict_get. rewrite Ht, Ha, H1, H2. simpl.
    do 2 eexists. split; [reflexivity |]. simpl. rewrite dict_find_update_eq, H1. simpl.
    repeat split; reflexivity.
Qed.

(** *** C6: the pairs the generators consider *)

Lemma fold_left_flat_map {A B C : Type} (f : A -> C -> A) (h : B -> list C)
  (l : list B) (a : A) :
  fold_left f (flat_map h l) a = fold_left (fun a b => fold_left f (h b) a) l a.
Proof.
  revert a. induction l as [| b l IH]; simpl; intros a; [reflexivity |].
  rewrite fold_left_app. apply IH.
Qed.

Lemma fold_left_pointwise {A B : Type} (f f' : A -> B -> A) (l : list B) (a : A) :
  (forall a b, f a b = f' a b) -> fold_left f l a = fold_left f' l a.
Proof.
  intros H. revert a. induction l as [| b l IH]; simpl; intros a; [reflexivity |].
  rewrite H. apply IH.
Qed.

Lemma fold_left_record {A : Type} (l : list A) (init : list A) :
  fold_left (fun tr p => tr ++ [p]) l init = init ++ l.
Proof.
  revert init. induction l as [| a l IH]; simpl; intros init; [now rewrite app_nil_r |].
  rewrite IH, <- app_assoc. reflexivity.
Qed.

Lemma map_flat_map {A B C : Type} (f : B -> C) (h : A -> list B) (l : list A) :
  map f (flat_map h l) = flat_map (fun a => map f (h a)) l.
Proof.
  induction l as [| a l IH]; simpl; [reflexivity |]. now rewrite map_app, IH.
Qed.

Lemma ball_ball_loop_schedule {A : Type} (body : A -> nat * Ball -> nat * Ball -> A)
  (bs : list Ball) (init : A) :
  ball_ball_loop body bs init =
  fold_left (fun acc p => body acc (fst p) (snd p)) (ball_ball_schedule bs) init.
Proof.
  unfold ball_ball_loop, ball_ball_schedule. rewrite fold_left_flat_map.
  apply fold_left_pointwise. intros a ib1. rewrite fold_left_flat_map.
  apply fold_left_pointwise. intros a' ib2.
  destruct (fst ib2 <=? fst ib1)%nat; [reflexivity |].
  destruct (is_stationary (snd ib1) && is_stationary (snd ib2)); reflexivity.
Qed.

Lemma ball_rail_loop_schedule {A : Type} (body : A -> nat * Ball -> nat * Rail -> A)
  (bs : list Ball) (rs : list Rail) (init : A) :
  ball_rail_loop body bs rs init =
  fold_left (fun acc p => body acc (fst p) (snd p)) (ball_rail_schedule bs rs) init.
Proof.
  unfold ball_rail_loop, ball_rail_schedule. rewrite fold_left_flat_map.
  apply fold_left_pointwise. intros a ib.
  destruct (is_stationary (snd ib)); [reflexivity |].
  rewrite fold_left_flat_map. apply fold_left_pointwise. reflexivity.
Qed.

Lemma ball_ball_considered_schedule (sys : Shot) :
  ball_ball_considered sys = ball_ball_schedule (dict_values (balls sys)).
Proof.
  unfold ball_ball_considered. rewrite ball_ball_loop_schedule.
  rewrite (fold_left_pointwise _ (fun tr p => tr ++ [p])) by (now intros a [? ?]).
  apply fold_left_record.
Qed.

Lemma ball_rail_considered_schedule (sys : Shot) :
  ball_rail_considered sys =
  ball_rail_schedule (dict_values (balls sys)) (dict_values (rails (table sys))).
Proof.
  unfold ball_rail_considered. rewrite ball_rail_loop_schedule.
  rewrite (fold_left_pointwise _ (fun tr p => tr ++ [p])) by (now intros a [? ?]).
  apply fold_left_record.
Qed.

Lemma in_enumerate_from {A : Type} (l : list A) (s i : nat) (a : A) :
  In (i, a) (combine (seq s (List.length l)) l) ->
  (s <= i)%nat /\ nth_error l (i - s)%nat = Some a.
Proof.
  revert s. induction l as [| x l IH]; simpl; intros s H; [contradiction |].
  destruct H as [H | H].
  - inversion H; subst. rewrite Nat.sub_diag. auto.
  - destruct (IH _ H) as [Hle Hn]. split; [lia |].
    replace (i - s)%nat with (S (i - S s)) by lia. exact Hn.
Qed.

Lemma in_enumerate_nth {A : Type} (l : list A) (i : nat) (a : A) :
  In (i, a) (enumerate l) -> nth_error l i = Some a.
Proof.
  intros H. destruct (in_enumerate_from l 0 i a H) as [_ Hn].
  now rewrite Nat.sub_0_r in Hn.
Qed.

(** Counting in a [flat_map] over an enumeration, when only position [i]
    can contribute. *)
Lemma count_flat_map_enumerate {A : Type} (F : nat * A -> list (nat * nat))
  (x : nat * nat) (i : nat) :
  (forall k a, k <> i -> count_occ pos_eq_dec (F (k, a)) x = 0%nat) ->
  forall (l : list A) (s : nat),
    count_occ pos_eq_dec (flat_map F (combine (seq s (List.length l)) l)) x =
    if (s <=? i)%nat then
      match nth_error l (i - s)%nat with
      | Some a => count_occ pos_eq_dec (F (i, a)) x
      | None => 0%nat
      end
    else 0%nat.
Proof.
  intros HF. induction l as [| a l IH]; intros s; simpl.
  - destruct (s <=? i)%nat; [| reflexivity]. now destruct (i - s)%nat.
  - rewrite count_occ_app, IH.
    destruct (Nat.eq_dec s i) as [-> | Hne].
    + assert (E : (S i <=? i)%nat = false) by (apply Nat.leb_gt; lia).
      rewrite E, Nat.leb_refl, Nat.sub_diag. cbn [nth_error]. apply Nat.add_0_r.
    + rewrite (HF s a Hne). cbn [Nat.add].
      destruct (s <=? i)%nat eqn:E.
      * apply Nat.leb_le in E.
        assert (E' : (S s <=? i)%nat = true) by (apply Nat.leb_le; lia).
        rewrite E'. replace (i - s)%nat with (S (i - S s)) by lia. reflexivity.
      * apply Nat.leb_gt in E.
        assert (E' : (S s <=? i)%nat = false) by (apply Nat.leb_gt; lia).
        now rewrite E'.
Qed.

Lemma count_single (c : bool) (p x : nat * nat) :
  count_occ pos_eq_dec (if c then [] else [p]) x =
  if c then 0%nat else if pos_eq_dec p x then 1%nat else 0%nat.
Proof. destruct c; simpl; [reflexivity |]. now destruct (pos_eq_dec p x). Qed.

Lemma count_enumerate_at {A : Type} (c : nat * A -> bool) (k i j : nat) (l : list A) :
  count_occ pos_eq_dec
    (flat_map (fun ia => if c ia then [] else [(k, fst ia)]) (enumerate l)) (i, j) =
  match nth_error l j with
  | Some a => if c (j, a) then 0%nat else if Nat.eq_dec k i then 1%nat else 0%nat
  | None => 0%nat
  end.
Proof.
  unfold enumerate.
  rewrite (count_flat_map_enumerate (fun ia => if c ia then [] else [(k, fst ia)]) (i, j) j).
  - rewrite Nat.sub_0_r. cbn [Nat.leb]. destruct (nth_error l j) as [a |]; [| reflexivity].
    rewrite count_single. destruct (c (j, a)); [reflexivity |]. cbn [fst].
    destruct (pos_eq_dec (k, j) (i, j)) as [E | E], (Nat.eq_dec k i) as [E' | E'];
      try reflexivity; congruence.
  - intros k2 a Hne. rewrite count_single. destruct (c (k2, a)); [reflexivity |]. cbn [fst].
    destruct (pos_eq_dec (k, k2) (i, j)) as [E | E]; [congruence | reflexivity].
Qed.

Lemma ball_ball_schedule_count (bs : list Ball) (i j : nat) :
  count_occ pos_eq_dec (map positions (ball_ball_schedule bs)) (i, j) =
  match nth_error bs i, nth_error bs j with
  | Some b1, Some b2 =>
      if (i <? j)%nat && negb (is_stationary b1 && is_stationary b2) then 1%nat else 0%nat
  | _, _ => 0%nat
  end.
Proof.
  unfold ball_ball_schedule. rewrite map_flat_map.
  rewrite (flat_map_ext _
             (fun ib1 =>
                flat_map
                  (fun ib2 =>
                     if (fst ib2 <=? fst ib1)%nat
                        || (is_stationary (snd ib1) && is_stationary (snd ib2))
                     then [] else [(fst ib1, fst ib2)])
                  (enumerate bs))).
  2:{ intros ib1. rewrite map_flat_map. apply flat_map_ext. intros ib2.
      destruct (fst ib2 <=? fst ib1)%nat; [reflexivity |].
      destruct (is_stationary (snd ib1) && is_stationary (snd ib2)); reflexivity. }
  unfold enumerate at 2.
  rewrite (count_flat_map_enumerate _ (i, j) i).
  - rewrite Nat.sub_0_r. simpl. destruct (nth_error bs i) as [b1 |]; [| reflexivity].
    rewrite (count_enumerate_at
               (fun ib2 => (fst ib2 <=? i)%nat || (is_stationary b1 && is_stationary (snd ib2)))).
    destruct (nth_error bs j) as [b2 |]; [| reflexivity]. simpl.
    destruct (Nat.eq_dec i i) as [_ | E]; [| contradiction].
    rewrite Nat.ltb_antisym.
    destruct (j <=? i)%nat; simpl; [reflexivity |].
    destruct (is_stationary b1 && is_stationary b2); reflexivity.
  - intros k a Hne. simpl.
    rewrite (count_enumerate_at
               (fun ib2 => (fst ib2 <=? k)%nat || (is_stationary a && is_stationary (snd ib2)))).
    destruct (nth_error bs j) as [b2 |]; [| reflexivity].
    destruct (_ || _); [reflexivity |].
    destruct (Nat.eq_dec k i); [contradiction | reflexivity].
Qed.

Lemma ball_rail_schedule_count (bs : list Ball) (rs : list Rail) (i r : nat) :
  count_occ pos_eq_dec (map positions (ball_rail_schedule bs rs)) (i, r) =
  match nth_error bs i, nth_error rs r with
  | Some b, Some _ => if is_stationary b then 0%nat else 1%nat
  | _, _ => 0%nat
  end.
Proof.
  unfold ball_rail_schedule. rewrite map_flat_map.
  rewrite (flat_map_ext _
             (fun ib =>
                flat_map
                  (fun ir => if is_stationary (snd ib) then [] else [(fst ib, fst ir)])
                  (enumerate rs))).
  2:{ intros ib. destruct (is_stationary (snd ib)).
      - simpl. induction (enumerate rs); simpl; auto.
      - rewrite map_flat_map. reflexivity. }
  unfold enumerate at 2.
  rewrite (count_flat_map_enumerate _ (i, r) i).
  - rewrite Nat.sub_0_r. simpl. destruct (nth_error bs i) as [b |]; [| reflexivity].
    rewrite (count_enumerate_at (fun _ => is_stationary b)).
    destruct (nth_error rs r) as [rl |]; [| reflexivity].
    destruct (is_stationary b); [reflexivity |].
    destruct (Nat.eq_dec i i); [reflexivity | contradiction].
  - intros k a Hne. simpl. rewrite (count_enumerate_at (fun _ => is_stationary a)).
    destruct (nth_error rs r) as [rl |]; [| reflexivity].
    destruct (is_stationary a); [reflexivity |].
    destruct (Nat.eq_dec k i); [contradiction | reflexivity].
Qed.

Lemma ball_ball_schedule_in (bs : list Ball) (p : (nat * Ball) * (nat * Ball)) :
  In p (ball_ball_schedule bs) -> In (fst p) (enumerate bs) /\ In (snd p) (enumerate bs).
Proof.
  unfold ball_ball_schedule. rewrite in_flat_map. intros (ib1 & H1 & H).
  rewrite in_flat_map in H. destruct H as (ib2 & H2 & H).
  destruct (fst ib2 <=? fst ib1)%nat; [contradiction |].
  destruct (is_stationary (snd ib1) && is_stationary (snd ib2)); [contradiction |].
  destruct H as [<- | []]. auto.
Qed.

Lemma ball_rail_schedule_in (bs : list Ball) (rs : list Rail) (p : (nat * Ball) * (nat * Rail)) :
  In p (ball_rail_schedule bs rs) -> In (fst p) (enumerate bs) /\ In (snd p) (enumerate rs).
Proof.
  unfold ball_rail_schedule. rewrite in_flat_map. intros (ib & H1 & H).
  destruct (is_stationary (snd ib)); [contradiction |].
  rewrite in_flat_map in H. destruct H as (ir & H2 & [<- | []]). auto.
Qed.

(** C6.  The ball-ball generator runs its body on pairs of balls of the
    shot: the pair of positions [(i, j)] occurs once when [i < j] and the two
    balls are not both stationary, and never otherwise (so never twice, never
    as [(j, i)], never with [i = j]).  The ball-rail generator runs its body
    once on each (ball, rail) pair whose ball is not stationary, and never on
    a stationary ball.  Each generator is its loop body folded over exactly
    these pairs. *)
Theorem generators_consider_pairs (sys : Shot) :
  let bs := dict_values (balls sys) in
  let rs := dict_values (rails (table sys)) in
  (forall i j,
     count_occ pos_eq_dec (map positions (ball_ball_considered sys)) (i, j) =
     match nth_error bs i, nth_error bs j with
     | Some b1, Some b2 =>
         if (i <? j)%nat && negb (is_stationary b1 && is_stationary b2) then 1%nat else 0%nat
     | _, _ => 0%nat
     end) /\
  (forall p, In p (ball_ball_considered sys) ->
     nth_error bs (fst (fst p)) = Some (snd (fst p)) /\
     nth_error bs (fst (snd p)) = Some (snd (snd p))) /\
  get_min_ball_ball_event_time sys =
    fold_left (fun acc p => ball_ball_body sys acc (fst p) (snd p))
      (ball_ball_considered sys) (infinity, []) /\
  (forall i r,
     count_occ pos_eq_dec (map positions (ball_rail_considered sys)) (i, r) =
     match nth_error bs i, nth_error rs r with
     | Some b, Some _ => if is_stationary b then 0%nat else 1%nat
     | _, _ => 0%nat
     end) /\
  (forall p, In p (ball_rail_considered sys) ->
     nth_error bs (fst (fst p)) = Some (snd (fst p)) /\
     nth_error rs (fst (snd p)) = Some (snd (snd p))) /\
  get_min_ball_rail_event_time sys =
    fold_left (fun acc p => ball_rail_body sys acc (fst p) (snd p))
      (ball_rail_considered sys) (infinity, [None; None]).
Proof.
  intros bs rs. rewrite ball_ball_considered_schedule, ball_rail_considered_schedule.
  fold bs. fold rs. repeat split.
  - intros i j. apply ball_ball_schedule_count.
  - destruct p as [[i b1] [j b2]]. apply ball_ball_schedule_in in H.
    apply in_enumerate_nth. apply H.
  - destruct p as [[i b1] [j b2]]. apply ball_ball_schedule_in in H.
    apply in_enumerate_nth. apply H.
  - unfold get_min_ball_ball_event_time. apply ball_ball_loop_schedule.
  - intros i r. apply ball_rail_schedule_count.
  - destruct p as [[i b] [j r]]. apply ball_rail_schedule_in in H.
    apply in_enumerate_nth. apply H.
  - destruct p as [[i b] [j r]]. apply ball_rail_schedule_in in H.
    apply in_enumerate_nth. apply H.
  - unfold get_min_ball_rail_event_time. apply ball_rail_loop_schedule.
Qed.

(** *** C9: the time bound *)





(** *** C3 and C7: what [continuize] logs

    The two statements hold for every kernel: they evaluate [continuize] on
    the recorded runs [bounce_recorded] and [rattle_recorded]. *)

(** Evaluate the computation of a goal [exists v, c = Ok v /\ _] and give
    its value. *)
Ltac returned_value :=
  lazymatch goal with
  | |- exists v, ?c = Ok v /\ _ =>
      let r := eval vm_compute in c in
      lazymatch r with
      | Ok ?v => exists v
      end
  end.

(** C3 (the code departs from the claim).  Setting the balls to the
    resolved state of an event, [set_table_state_via_history], logs nothing:
    history and sample counter are as before.  [bounce_recorded] holds an
    event at time 1 with the resolved state [sliding], [rvw_at 1.5 (-1)];
    [continuize] with [dt = 0.75] returns a history of two samples, logged at
    times 0 and 0.75: the initial state and that state advanced by 0.75.  No
    sample is logged at time 1; the resolved state of the event is set on the
    ball after the last sample and is not logged. *)
Theorem continuize_logs_no_sample_at_event (fuel : nat) :
  (forall sys index h sys',
     set_table_state_via_history sys index h = Ok sys' ->
     history sys' = history sys /\ n sys' = n sys) /\
  exists sys',
    continuize (S fuel) bounce_recorded 0.75 = Ok sys' /\
    h_time (history bounce_recorded) = [0; 1] /\
    option_map h_s (dict_find "cue"%string (h_balls (history bounce_recorded))) =
      Some [rolling; sliding] /\
    option_map h_rvw (dict_find "cue"%string (h_balls (history bounce_recorded))) =
      Some [rvw_at 0.5 1; rvw_at 1.5 (-1)] /\
    h_time (history sys') = [0; 0.75] /\
    h_event (history sys') = [None; None] /\
    existsb (fun t => t =? 1) (h_time (history sys')) = false /\
    option_map h_s (dict_find "cue"%string (h_balls (history sys'))) =
      Some [rolling;
            ball_s (evolve_ball bounce_recorded 0.75
                      (mkBall "cue"%string rolling (rvw_at 0.5 1) 0.5 1))] /\
    option_map h_rvw (dict_find "cue"%string (h_balls (history sys'))) =
      Some [rvw_at 0.5 1;
            ball_rvw (evolve_ball bounce_recorded 0.75
                        (mkBall "cue"%string rolling (rvw_at 0.5 1) 0.5 1))] /\
    dict_find "cue"%string (balls sys') =
      Some (mkBall "cue"%string sliding (rvw_at 1.5 (-1)) 0.5 1).
Proof.
  split.
  - unfold set_table_state_via_history. intros sys index h sys' H.
    destruct (set_state_loop _ _ _); simpl in H; try discriminate.
    inversion H; subst. split; reflexivity.
  - destruct fuel as [| fuel]; returned_value; repeat split; vm_compute; reflexivity.
Qed.

(** C7 (the code departs from the claim).  [rattle_recorded] is a run of
    total duration 11/64 whose events are 1/64 apart.  [continuize] with
    [dt = 1/16] never finds room for a step between two events and logs the
    initial sample only: [count = 1], and [|1 * dt - T| = 7/64] exceeds
    [dt = 4/64]. *)
Theorem continuize_sample_count_off (fuel : nat) :
  exists sys',
    continuize fuel rattle_recorded 0.0625 = Ok sys' /\
    time rattle_recorded = 0.171875 /\
    h_time (history sys') = [0] /\
    List.length (h_index (history sys')) = 1%nat /\
    (0.0625 <? abs (1 * 0.0625 - time rattle_recorded)) = true /\
    (abs (1 * 0.0625 - time rattle_recorded) <=? 0.0625) = false.
Proof.
  destruct fuel as [| fuel]; returned_value; repeat split; vm_compute; reflexivity.
Qed.

End Facts.

(** *** Concrete runs

    The statements below run the engine with the kernel [line_physics]. *)

(** The concrete shot [tie_shot]: the ball stops rolling at the instant it
    reaches the right rail, and the motion transition wins. *)
Lemma get_next_event_minimum_and_tie_break_witness :
  get_min_motion_event_time tie_shot = Ok (1, [Some "cue"%string], Some end_roll) /\
  get_min_ball_ball_event_time tie_shot = (infinity, []) /\
  get_min_ball_rail_event_time tie_shot = (1, [Some "cue"%string; Some "R"%string]) /\
  get_next_event tie_shot = Ok (mkEvent (Some end_roll) [Some "cue"%string] 1).
Proof.
  assert (Hm : get_min_motion_event_time tie_shot
               = Ok (1, [Some "cue"%string], Some end_roll)) by reflexivity.
  assert (Hb : get_min_ball_ball_event_time tie_shot = (infinity, [])) by reflexivity.
  assert (Hr : get_min_ball_rail_event_time tie_shot
               = (1, [Some "cue"%string; Some "R"%string])) by reflexivity.
  destruct (get_next_event_minimum_and_tie_break tie_shot) as [_ Hnext].
  destruct (Hnext _ _ _ _ _ _ _ Hm Hb Hr) as (ev & Hev & _ & _ & _ & Htie & _).
  split; [exact Hm |]. split; [exact Hb |]. split; [exact Hr |].
  rewrite Hev. f_equal. apply Htie; reflexivity.
Defined.

(** Two balls at rest: [rest_shot]. *)
Lemma simulate_all_stationary_witness :
  get_next_event rest_shot = Ok (mkEvent None [] infinity) /\
  exists sys',
    simulate 1 None rest_shot = Ok sys' /\
    balls sys' = balls rest_shot /\
    h_event (history sys') =
      h_event (history rest_shot) ++ [Some initial_event; Some (mkEvent None [] infinity)].
Proof.
  apply (simulate_all_stationary rest_shot 0 None).
  - unfold stationary_is_identity. intros. reflexivity.
  - repeat constructor.
  - reflexivity.
Defined.

(** C5, as stated, fails on a motion transition: the agent of an end-roll
    event is left in its state (here [rolling]), not set to [sliding]. *)
Lemma resolve_end_roll_not_sliding :
  resolve tie_shot (mkEvent (Some end_roll) [Some "cue"%string] 1) = Ok tie_shot /\
  In (Some "cue"%string) (agents (mkEvent (Some end_roll) [Some "cue"%string] 1)) /\
  dict_find "cue"%string (balls tie_shot) = Some cue_rolling /\
  ball_s cue_rolling = rolling /\
  ball_s cue_rolling <> sliding.
Proof.
  split; [reflexivity |]. split; [simpl; auto |]. split; [reflexivity |].
  split; [reflexivity | discriminate].
Qed.

(** The recorded runs are runs of the engine. *)
Lemma bounce_recorded_run : simulate 10 (Some 1) bounce_shot = Ok bounce_recorded.
Proof. vm_compute. reflexivity. Qed.

Lemma rattle_recorded_run : simulate 20 (Some 0.171875) rattle_shot = Ok rattle_recorded.
Proof. vm_compute. reflexivity. Qed.

(** [two_ball_shot]: the 8 ball hits the right rail after one time unit; the
    cue ball, not an agent, has moved from 1 to 1.5 meanwhile. *)
Lemma iteration_evolves_every_ball_witness :
  iteration two_ball_started = Ok two_ball_after_1 /\
  snd two_ball_after_1 = mkEvent (Some ball_rail) [Some "8"%string; Some "R"%string] 1 /\
  dict_find "cue"%string (balls (fst two_ball_after_1)) =
    Some (mkBall "cue"%string rolling (rvw_at 1.5 0.5) 0.5 1).
Proof.
  assert (H : iteration two_ball_started = Ok (fst two_ball_after_1, snd two_ball_after_1))
    by (vm_compute; reflexivity).
  destruct (iteration_evolves_every_ball _ _ _ H) as (_ & _ & _ & Hframe & _).
  split; [exact H |]. split; [reflexivity |].
  rewrite (Hframe "cue"%string (mkBall "cue"%string rolling (rvw_at 1 0.5) 0.5 1)).
  - reflexivity.
  - reflexivity.
  - simpl. intros [E | [E | []]]; discriminate.
Defined.


End EngineFacts.

(** ** More on the cushion and the table *)

Module TableFacts.

Import Table.

Local Open Scope R_scope.










End TableFacts.

(** ** More on the history *)

Module HistoryFacts.

Import Engine FloatOrder EngineFacts.

Local Open Scope float_scope.

(** *** Dictionaries and Python indexing *)

Lemma dict_find_app {A : Type} (k : ident) (d d' : list (ident * A)) :
  dict_find k (d ++ d') =
  match dict_find k d with
  | Some a => Some a
  | None => dict_find k d'
  end.
Proof.
  induction d as [| [k0 a] d IH]; simpl; [reflexivity |].
  destruct (String.eqb k k0); [reflexivity | exact IH].
Qed.

Lemma dict_find_unique {A : Type} (k : ident) (a : A) (d : list (ident * A)) :
  unique_keys d -> In (k, a) d -> dict_find k d = Some a.
Proof.
  unfold unique_keys, dict_keys. induction d as [| [k0 a0] d IH]; simpl; intros Hn Hin.
  - contradiction.
  - inversion Hn as [| ? ? Hnot Hn']; subst. destruct Hin as [E | Hin].
    + inversion E; subst. now rewrite String.eqb_refl.
    + destruct (String.eqb k k0) eqn:E.
      * apply String.eqb_eq in E. subst k0. exfalso. apply Hnot.
        apply in_map_iff. exists (k, a). auto.
      * now apply IH.
Qed.

Lemma dict_find_in {A : Type} (k : ident) (a : A) (d : list (ident * A)) :
  dict_find k d = Some a -> In (k, a) d.
Proof.
  induction d as [| [k0 a0] d IH]; simpl; [discriminate |].
  destruct (String.eqb k k0) eqn:E.
  - apply String.eqb_eq in E. subst. intros [= ->]. auto.
  - auto.
Qed.

Lemma py_index_last {A : Type} (l : list A) (x : A) :
  py_index (l ++ [x]) (Z.of_nat (List.length l)) = Ok x.
Proof.
  unfold py_index. rewrite length_app. simpl.
  destruct (Z.of_nat (List.length l) <? 0)%Z eqn:E; [apply Z.ltb_lt in E; lia |].
  replace ((0 <=? Z.of_nat (List.length l))%Z
           && (Z.of_nat (List.length l) <? Z.of_nat (List.length l + 1))%Z)%bool
    with true
    by (symmetry; apply andb_true_intro; split;
        [apply Z.leb_le | apply Z.ltb_lt]; lia).
  rewrite Nat2Z.id, nth_error_app2 by lia. now rewrite Nat.sub_diag.
Qed.

Lemma py_index_minus_one {A : Type} (l : list A) (x : A) :
  py_index (l ++ [x]) (-1) = Ok x.
Proof.
  unfold py_index. rewrite length_app. simpl.
  replace (Z.of_nat (List.length l + 1) + -1)%Z with (Z.of_nat (List.length l)) by lia.
  replace ((0 <=? Z.of_nat (List.length l))%Z
           && (Z.of_nat (List.length l) <? Z.of_nat (List.length l + 1))%Z)%bool
    with true
    by (symmetry; apply andb_true_intro; split;
        [apply Z.leb_le | apply Z.ltb_lt]; lia).
  rewrite Nat2Z.id, nth_error_app2 by lia. now rewrite Nat.sub_diag.
Qed.

(** *** [log_balls] *)

Lemma log_balls_raises (bs : list (ident * Ball)) (hb : list (ident * BallHistory)) :
  ~ incl (dict_keys bs) (dict_keys hb) -> log_balls bs hb = Raise KeyError.
Proof.
  revert hb. induction bs as [| [k b] bs IH]; intros hb Hn; simpl.
  - exfalso. apply Hn. intros x [].
  - destruct (dict_find k hb) eqn:E; [| reflexivity].
    apply IH. rewrite dict_keys_update. intros Hin. apply Hn.
    intros x [Hx | Hx]; [| now apply Hin]. simpl in Hx. subst x.
    destruct (in_dec string_dec k (dict_keys hb)) as [H | H]; [exact H |].
    apply dict_find_None_iff in H. congruence.
Qed.

Lemma log_balls_spec (bs : list (ident * Ball)) (hb hb' : list (ident * BallHistory)) :
  unique_keys bs -> log_balls bs hb = Ok hb' ->
  (forall k b, dict_find k bs = Some b ->
     exists e, dict_find k hb = Some e /\
       dict_find k hb' =
         Some (mkBallHistory (h_s e ++ [ball_s b]) (h_rvw e ++ [ball_rvw b]))) /\
  (forall k, ~ In k (dict_keys bs) -> dict_find k hb' = dict_find k hb).
Proof.
  unfold unique_keys. revert hb. induction bs as [| [k0 b0] bs IH]; intros hb Hn H; simpl in *.
  - inversion H; subst. split; [discriminate | reflexivity].
  - inversion Hn as [| ? ? Hnot Hn']; subst.
    destruct (dict_find k0 hb) as [e0 |] eqn:E0; [| discriminate].
    destruct (IH _ Hn' H) as [IH1 IH2]. split.
    + intros k b Hk. destruct (String.eqb k k0) eqn:E.
      * apply String.eqb_eq in E. subst k0. inversion Hk; subst b0.
        exists e0. split; [exact E0 |].
        rewrite (IH2 k Hnot), dict_find_update_eq, E0. reflexivity.
      * apply String.eqb_neq in E. destruct (IH1 k b Hk) as (e & He & He').
        rewrite dict_find_update_ne in He by exact E. eauto.
    + intros k Hk. rewrite IH2 by (intros Hin; apply Hk; auto).
      apply dict_find_update_ne. intros ->. apply Hk. auto.
Qed.

Lemma timestamp_inv (sys sys' : Shot) (dt : float) (e : option Event) :
  timestamp sys dt e = Ok sys' ->
  log_balls (balls sys) (h_balls (history sys)) = Ok (h_balls (history sys')).
Proof.
  unfold timestamp. destruct (vectorized sys); [discriminate |].
  destruct (log_balls _ _) as [hb | |]; simpl; try discriminate.
  now intros [= <-].
Qed.

(** X4.  The two ways [timestamp] fails, and what it does otherwise: it
    raises [AttributeError] on a vectorized history, [KeyError] when a ball
    of the shot has no entry in [history['balls']], and in every other case
    appends one sample to each list. *)
Theorem timestamp_outcomes (sys : Shot) (dt : float) (e : option Event) :
  (vectorized sys = true -> timestamp sys dt e = Raise AttributeError) /\
  (vectorized sys = false -> ~ covered sys -> timestamp sys dt e = Raise KeyError) /\
  (vectorized sys = false -> covered sys ->
   exists sys',
     timestamp sys dt e = Ok sys' /\ covered sys' /\
     balls sys' = balls sys /\ n sys' = (n sys + 1)%Z /\ time sys' = time sys + dt /\
     h_index (history sys') = h_index (history sys) ++ [(n sys + 1)%Z] /\
     h_time (history sys') = h_time (history sys) ++ [time sys + dt] /\
     h_event (history sys') = h_event (history sys) ++ [e]).
Proof.
  split; [| split].
  - intros V. unfold timestamp. now rewrite V.
  - intros V C. unfold timestamp. rewrite V. now rewrite (log_balls_raises _ _ C).
  - intros V C. destruct (timestamp_ok sys dt e V C) as (sys' & H & C').
    exists sys'. split; [exact H |]. split; [exact C' |].
    destruct (timestamp_frame _ _ _ _ H) as (? & _ & _ & _ & _ & ? & ? & ? & ? & ?).
    auto 10.
Qed.

(** *** [touch_history] and [reset_history] *)

Lemma touch_history_loop_find (ids : list ident) (sys : Shot) :
  incl ids (dict_keys (balls sys)) ->
  exists sys', touch_history_loop ids sys = Ok sys' /\ same_but_ball_history sys sys' /\
    forall k, dict_find k (h_balls (history sys')) =
      match dict_find k (h_balls (history sys)) with
      | Some e => Some e
      | None =>
          if in_dec string_dec k ids
          then Some (mkBallHistory (repeat nan_state (Z.to_nat (n sys)))
                       (repeat nan_rvw (Z.to_nat (n sys))))
          else None
      end.
Proof.
  revert sys. induction ids as [| k0 ids IH]; intros sys Hin.
  - exists sys. split; [reflexivity |]. split; [apply same_but_ball_history_refl |].
    intros k. simpl. now destruct (dict_find k _).
  - assert (Hk0 : In k0 (dict_keys (balls sys))) by (apply Hin; simpl; auto).
    assert (Hids : incl ids (dict_keys (balls sys))) by (intros x Hx; apply Hin; simpl; auto).
    cbn [touch_history_loop]. destruct (dict_find k0 (h_balls (history sys))) as [e0 |] eqn:E0.
    + destruct (IH sys Hids) as (sys' & H1 & H2 & H3).
      exists sys'. split; [exact H1 |]. split; [exact H2 |].
      intros k. rewrite H3. destruct (dict_find k (h_balls (history sys))) eqn:Ek; [reflexivity |].
      destruct (in_dec string_dec k ids) as [Hi | Hi], (in_dec string_dec k (k0 :: ids)) as [Hj | Hj];
        try reflexivity.
      * exfalso. apply Hj. simpl. auto.
      * exfalso. destruct Hj as [Hj | Hj]; [congruence | contradiction].
    + unfold init_ball_history.
      destruct (dict_find k0 (balls sys)) eqn:Eb;
        [| apply dict_find_None_iff in Eb; contradiction].
      rewrite E0. cbn [bind].
      match goal with |- context [touch_history_loop ids ?s] => set (sys1 := s) end.
      destruct (IH sys1 Hids) as (sys' & H1 & H2 & H3).
      exists sys'. split; [exact H1 |].
      split.
      { apply (same_but_ball_history_trans sys sys1 sys'); [| exact H2].
        unfold same_but_ball_history, sys1. simpl. tauto. }
      intros k. rewrite H3. unfold sys1. cbn [history h_balls n].
      rewrite dict_find_app. destruct (dict_find k (h_balls (history sys))) eqn:Ek; [reflexivity |].
      simpl dict_find. destruct (String.eqb k k0) eqn:E.
      * apply String.eqb_eq in E. subst k0.
        destruct (in_dec string_dec k (k :: ids)) as [Hj | Hj]; [reflexivity |].
        exfalso. apply Hj. simpl. auto.
      * apply String.eqb_neq in E.
        destruct (in_dec string_dec k ids) as [Hi | Hi], (in_dec string_dec k (k0 :: ids)) as [Hj | Hj];
          try reflexivity.
        -- exfalso. apply Hj. simpl. auto.
        -- exfalso. destruct Hj as [Hj | Hj]; [congruence | contradiction].
Qed.

Lemma touch_history_loop_covered (ids : list ident) (sys : Shot) :
  incl ids (dict_keys (h_balls (history sys))) -> touch_history_loop ids sys = Ok sys.
Proof.
  induction ids as [| k ids IH]; intros Hin; simpl; [reflexivity |].
  destruct (dict_find k (h_balls (history sys))) eqn:E.
  - apply IH. intros x Hx. apply Hin. simpl. auto.
  - apply dict_find_None_iff in E. exfalso. apply E, Hin. simpl. auto.
Qed.

(** X5.  [touch_history] never raises.  It changes nothing but
    [history['balls']]: the entries that are there stay as they are, every
    ball of the shot without an entry gets lists of [self.n] fillers (none
    when [self.n <= 0]), no other key is added, and a second call changes
    nothing. *)
Theorem touch_history_adds_missing_entries (sys : Shot) :
  exists sys',
    touch_history sys = Ok sys' /\ same_but_ball_history sys sys' /\ covered sys' /\
    (forall k e, dict_find k (h_balls (history sys)) = Some e ->
       dict_find k (h_balls (history sys')) = Some e) /\
    (forall k, In k (dict_keys (balls sys)) ->
       dict_find k (h_balls (history sys)) = None ->
       dict_find k (h_balls (history sys')) =
         Some (mkBallHistory (repeat nan_state (Z.to_nat (n sys)))
                 (repeat nan_rvw (Z.to_nat (n sys))))) /\
    (forall k, ~ In k (dict_keys (balls sys)) ->
       dict_find k (h_balls (history sys')) = dict_find k (h_balls (history sys))) /\
    touch_history sys' = Ok sys'.
Proof.
  destruct (touch_history_loop_find (dict_keys (balls sys)) sys (incl_refl _))
    as (sys' & H1 & H2 & H3).
  assert (C : covered sys').
  { unfold covered. destruct H2 as (-> & _). intros k Hk.
    destruct (in_dec string_dec k (dict_keys (h_balls (history sys')))) as [H | H]; [exact H |].
    apply dict_find_None_iff in H. rewrite H3 in H.
    destruct (dict_find k (h_balls (history sys))); [discriminate |].
    destruct (in_dec string_dec k (dict_keys (balls sys))); [discriminate | contradiction]. }
  exists sys'. split; [exact H1 |]. split; [exact H2 |]. split; [exact C |].
  split; [| split; [| split]].
  - intros k e Hk. now rewrite H3, Hk.
  - intros k Hk Hn. rewrite H3, Hn.
    destruct (in_dec string_dec k (dict_keys (balls sys))); [reflexivity | contradiction].
  - intros k Hk. rewrite H3. destruct (dict_find k (h_balls (history sys))); [reflexivity |].
    destruct (in_dec string_dec k (dict_keys (balls sys))); [contradiction | reflexivity].
  - unfold touch_history. apply touch_history_loop_covered. exact C.
Qed.

Lemma touch_history_loop_fresh (ids : list ident) (sys : Shot) :
  NoDup ids -> incl ids (dict_keys (balls sys)) -> (n sys <= 0)%Z ->
  (forall k, In k ids -> ~ In k (dict_keys (h_balls (history sys)))) ->
  touch_history_loop ids sys =
    Ok (mkShot (balls sys) (table sys) (g sys) (vectorized sys)
          (mkHistory (h_balls (history sys) ++ map (fun k => (k, mkBallHistory [] [])) ids)
             (h_index (history sys)) (h_time (history sys)) (h_event (history sys)))
          (n sys) (time sys)).
Proof.
  revert sys. induction ids as [| k0 ids IH]; intros sys Hnd Hin Hn Hout.
  - simpl. rewrite app_nil_r. now destruct sys as [? ? ? ? [] ? ?].
  - inversion Hnd as [| ? ? Hnot Hnd']; subst. cbn [touch_history_loop].
    assert (E0 : dict_find k0 (h_balls (history sys)) = None).
    { apply dict_find_None_iff. apply Hout. simpl. auto. }
    rewrite E0. unfold init_ball_history.
    destruct (dict_find k0 (balls sys)) eqn:Eb.
    2:{ apply dict_find_None_iff in Eb. exfalso. apply Eb, Hin. simpl. auto. }
    rewrite E0. cbn [bind].
    replace (Z.to_nat (n sys)) with O by lia. cbn [repeat].
    rewrite IH; cbn [balls table g vectorized history n time h_balls h_index h_time h_event].
    + now rewrite <- app_assoc.
    + exact Hnd'.
    + intros x Hx. apply Hin. simpl. auto.
    + exact Hn.
    + intros k Hk. rewrite dict_keys_app. intros Hi. apply in_app_or in Hi.
      destruct Hi as [Hi | Hi].
      * apply (Hout k); simpl; auto.
      * simpl in Hi. destruct Hi as [Hi | []]. congruence.
Qed.

(** X6.  [reset_history] never raises on a dictionary of balls: it leaves
    the balls, the table and [g], and starts an unvectorized history with no
    sample ([n = -1], time [0]) that has an entry with empty lists for every
    ball, in the order of [self.balls]. *)
Theorem reset_history_result (sys : Shot) :
  unique_keys (balls sys) ->
  reset_history sys =
    Ok (mkShot (balls sys) (table sys) (g sys) false
          (mkHistory (map (fun k => (k, mkBallHistory [] [])) (dict_keys (balls sys))) [] [] [])
          (-1)%Z 0).
Proof.
  intros U. unfold reset_history, touch_history.
  rewrite touch_history_loop_fresh; cbn [balls n history h_balls empty_history];
    try reflexivity; try assumption; try lia.
  - apply incl_refl.
  - intros k _ [].
Qed.

(** *** [set_table_state_via_history] *)

Lemma py_index_in_bounds {A : Type} (l : list A) (i : Z) :
  in_bounds i (Z.of_nat (List.length l)) -> exists a, py_index l i = Ok a.
Proof.
  unfold in_bounds, py_index. intros H.
  set (len := Z.of_nat (List.length l)) in *.
  set (j := if (i <? 0)%Z then (len + i)%Z else i).
  assert (Hj : (0 <= j < len)%Z).
  { unfold j. destruct (i <? 0)%Z eqn:E; [apply Z.ltb_lt in E | apply Z.ltb_ge in E]; lia. }
  replace ((0 <=? j)%Z && (j <? len)%Z)%bool with true
    by (symmetry; apply andb_true_intro; split; [apply Z.leb_le | apply Z.ltb_lt]; lia).
  destruct (nth_error l (Z.to_nat j)) eqn:E; [eauto |].
  apply nth_error_None in E. unfold len in Hj. lia.
Qed.

Lemma py_index_out_of_bounds {A : Type} (l : list A) (i : Z) :
  ~ in_bounds i (Z.of_nat (List.length l)) -> py_index l i = Raise IndexError.
Proof.
  unfold in_bounds, py_index. intros H.
  set (len := Z.of_nat (List.length l)) in *.
  set (j := if (i <? 0)%Z then (len + i)%Z else i).
  destruct ((0 <=? j)%Z && (j <? len)%Z)%bool eqn:E; [| reflexivity].
  apply andb_prop in E. destruct E as [E1 E2]. apply Z.leb_le in E1. apply Z.ltb_lt in E2.
  exfalso. apply H. unfold j in *.
  destruct (i <? 0)%Z eqn:E; [apply Z.ltb_lt in E | apply Z.ltb_ge in E]; lia.
Qed.

Lemma set_state_loop_ok (bs : list (ident * Ball)) (index : Z) (h : History) :
  (forall k, In k (dict_keys bs) ->
     exists e, dict_find k (h_balls h) = Some e /\
       in_bounds index (Z.of_nat (List.length (h_rvw e))) /\
       in_bounds index (Z.of_nat (List.length (h_s e)))) ->
  exists bs', set_state_loop bs index h = Ok bs' /\
    List.length bs' = List.length bs /\
    forall i k b, nth_error bs i = Some (k, b) ->
      exists e rvw s, dict_find k (h_balls h) = Some e /\
        py_index (h_rvw e) index = Ok rvw /\ py_index (h_s e) index = Ok s /\
        nth_error bs' i = Some (k, ball_set b rvw s).
Proof.
  induction bs as [| [k0 b0] bs IH]; intros H.
  - exists []. split; [reflexivity |]. split; [reflexivity |]. intros [| i] k b; discriminate.
  - destruct (H k0) as (e & He & Hr & Hs); [simpl; auto |].
    destruct (py_index_in_bounds _ _ Hr) as (rvw & Hrvw).
    destruct (py_index_in_bounds _ _ Hs) as (s & Hs').
    destruct IH as (bs' & H1 & H2 & H3); [intros k Hk; apply H; simpl; auto |].
    exists ((k0, ball_set b0 rvw s) :: bs'). cbn [set_state_loop dict_get].
    rewrite He. cbn [bind]. rewrite Hrvw. cbn [bind]. rewrite Hs'. cbn [bind].
    rewrite H1. cbn [bind]. split; [reflexivity |]. split; [simpl; now rewrite H2 |].
    intros [| i] k b Hi; simpl in Hi.
    + inversion Hi; subst. exists e, rvw, s. auto.
    + exact (H3 i k b Hi).
Qed.

(** X7.  [set_table_state_via_history(index)] reads the history the way a
    Python list is indexed.  On a history in step with [n + 1] samples it
    succeeds exactly for [-(n+1) <= index <= n]: each ball then gets the
    sample at [index] (counted from the end when negative) as its rvw and s,
    and nothing else changes; any other index raises [IndexError] as soon as
    there is a ball. *)
Theorem set_table_state_via_history_bounds (sys : Shot) (index : Z) :
  aligned sys ->
  (in_bounds index (n sys + 1) ->
   exists sys', set_table_state_via_history sys index (history sys) = Ok sys' /\
     with_balls sys' (balls sys) = sys /\
     List.length (balls sys') = List.length (balls sys) /\
     forall i k b, nth_error (balls sys) i = Some (k, b) ->
       exists e rvw s, dict_find k (h_balls (history sys)) = Some e /\
         py_index (h_rvw e) index = Ok rvw /\ py_index (h_s e) index = Ok s /\
         nth_error (balls sys') i = Some (k, ball_set b rvw s)) /\
  (~ in_bounds index (n sys + 1) -> balls sys <> [] ->
   set_table_state_via_history sys index (history sys) = Raise IndexError).
Proof.
  intros (Hn & _ & _ & _ & Hb). split.
  - intros Hi. destruct (set_state_loop_ok (balls sys) index (history sys)) as (bs' & H1 & H2 & H3).
    { intros k Hk. destruct (Hb k Hk) as (e & He & Hs & Hr). exists e.
      rewrite Hs, Hr, Z2Nat.id by lia. auto. }
    unfold set_table_state_via_history. rewrite H1. cbn [bind].
    eexists. split; [reflexivity |]. cbn [balls with_balls].
    split; [now destruct sys |]. split; [exact H2 | exact H3].
  - intros Hi Hne. unfold set_table_state_via_history.
    destruct (balls sys) as [| [k b] bs] eqn:Eb; [congruence |].
    destruct (Hb k) as (e & He & Hs & Hr); [simpl; auto |].
    cbn [set_state_loop dict_get]. rewrite He. cbn [bind].
    rewrite py_index_out_of_bounds; [reflexivity |].
    rewrite Hr, Z2Nat.id by lia. exact Hi.
Qed.

(** *** [get_event_history_for_ball] *)

Lemma event_history_loop_filter (k : ident) (evs : list Event) :
  event_history_loop k (map Some evs) =
    Ok (filter (fun e => existsb (agent_is k) (agents e)) evs).
Proof.
  induction evs as [| e evs IH]; simpl; [reflexivity |]. rewrite IH. reflexivity.
Qed.

Lemma event_history_loop_none (k : ident) (evs : list (option Event)) :
  In None evs -> event_history_loop k evs = Raise AttributeError.
Proof.
  induction evs as [| [e |] evs IH]; simpl; intros H; [contradiction | | reflexivity].
  destruct H as [H | H]; [discriminate |]. now rewrite IH.
Qed.

(** X8.  [get_event_history_for_ball] returns, in their order, the logged
    events that have the ball among their agents when every logged entry is an
    [Event]; as soon as one sample was logged without an event
    ([timestamp(dt)] with the default [event=None]) it raises
    [AttributeError], whatever the ball. *)
Theorem get_event_history_for_ball_outcomes (sys : Shot) (k : ident) :
  (forall evs, h_event (history sys) = map Some evs ->
     get_event_history_for_ball sys k =
       Ok (filter (fun e => existsb (agent_is k) (agents e)) evs)) /\
  (In None (h_event (history sys)) ->
     get_event_history_for_ball sys k = Raise AttributeError).
Proof.
  unfold get_event_history_for_ball. split.
  - intros evs ->. apply event_history_loop_filter.
  - apply event_history_loop_none.
Qed.

Lemma alignedb_aligned (sys : Shot) : alignedb sys = true -> aligned sys.
Proof.
  unfold alignedb, aligned. intros H.
  repeat (apply andb_prop in H; destruct H as [H ?]).
  apply Z.leb_le in H.
  repeat match goal with E : Nat.eqb _ _ = true |- _ => apply Nat.eqb_eq in E end.
  split; [exact H |]. repeat (split; [assumption |]).
  intros k Hk.
  match goal with F : forallb _ _ = true |- _ => rewrite forallb_forall in F;
    specialize (F k Hk) end.
  destruct (dict_find k (h_balls (history sys))) as [e |]; [| discriminate].
  exists e. split; [reflexivity |].
  match goal with F : (_ && _)%bool = true |- _ => apply andb_prop in F; destruct F as [F1 F2] end.
  apply Nat.eqb_eq in F1. apply Nat.eqb_eq in F2. auto.
Qed.

Ltac distinct_keys := unfold unique_keys; cbn; repeat constructor; cbn; intuition discriminate.

(** *** Samples stay in step *)

Lemma next_length (z : Z) : (-1 <= z)%Z -> Z.to_nat (z + 1 + 1) = S (Z.to_nat (z + 1)).
Proof. intros H. rewrite <- Z2Nat.inj_succ by lia. f_equal; lia. Qed.

Lemma timestamp_aligned (sys sys' : Shot) (dt : float) (e : option Event) :
  unique_keys (balls sys) -> aligned sys -> timestamp sys dt e = Ok sys' ->
  aligned sys' /\
  forall k b, dict_find k (balls sys') = Some b ->
    exists e0, dict_find k (h_balls (history sys)) = Some e0 /\
      List.length (h_s e0) = Z.to_nat (n sys + 1) /\
      List.length (h_rvw e0) = Z.to_nat (n sys + 1) /\
      dict_find k (h_balls (history sys')) =
        Some (mkBallHistory (h_s e0 ++ [ball_s b]) (h_rvw e0 ++ [ball_rvw b])).
Proof.
  intros U (Hn & Hi & Ht & He & Hb) H.
  pose proof (timestamp_inv _ _ _ _ H) as Hlog.
  destruct (timestamp_frame _ _ _ _ H) as (B & _ & _ & _ & _ & N & _ & I & T & E).
  destruct (log_balls_spec _ _ _ U Hlog) as [L1 _].
  assert (Hmain : forall k b, dict_find k (balls sys') = Some b ->
            exists e0, dict_find k (h_balls (history sys)) = Some e0 /\
              List.length (h_s e0) = Z.to_nat (n sys + 1) /\
              List.length (h_rvw e0) = Z.to_nat (n sys + 1) /\
              dict_find k (h_balls (history sys')) =
                Some (mkBallHistory (h_s e0 ++ [ball_s b]) (h_rvw e0 ++ [ball_rvw b]))).
  { intros k b Hk. rewrite B in Hk. destruct (L1 k b Hk) as (e0 & He0 & He0').
    assert (Hin : In k (dict_keys (balls sys))).
    { destruct (in_dec string_dec k (dict_keys (balls sys))) as [Hin | Hin]; [exact Hin |].
      apply dict_find_None_iff in Hin. congruence. }
    destruct (Hb k Hin) as (e1 & He1 & Hs & Hr).
    assert (e1 = e0) by congruence. subst e1.
    exists e0. repeat split; assumption. }
  split; [| exact Hmain].
  unfold aligned. rewrite N, I, T, E, !length_app, Hi, Ht, He. cbn [List.length].
  rewrite (next_length _ Hn). split; [lia |]. repeat split; try lia.
  intros k Hk. rewrite B in Hk.
  destruct (dict_find k (balls sys)) as [b |] eqn:Eb;
    [| apply dict_find_None_iff in Eb; contradiction].
  rewrite <- B in Eb. destruct (Hmain k b Eb) as (e0 & _ & Hs & Hr & He0).
  eexists. split; [exact He0 |]. cbn [h_s h_rvw]. rewrite !length_app, Hs, Hr.
  cbn [List.length]. lia.
Qed.

Lemma ball_set_same (b : Ball) : ball_set b (ball_rvw b) (ball_s b) = b.
Proof. now destruct b. Qed.

Lemma set_state_loop_restore (f : Ball -> Ball) (bs : list (ident * Ball))
  (index : Z) (h : History) :
  (forall b rvw s, ball_set (f b) rvw s = ball_set b rvw s) ->
  (forall k b, In (k, b) bs ->
     exists e, dict_find k (h_balls h) = Some e /\
       py_index (h_rvw e) index = Ok (ball_rvw b) /\
       py_index (h_s e) index = Ok (ball_s b)) ->
  set_state_loop (map (fun kb => (fst kb, f (snd kb))) bs) index h = Ok bs.
Proof.
  intros Hf. induction bs as [| [k b] bs IH]; intros H; simpl; [reflexivity |].
  destruct (H k b) as (e & He & Hr & Hs); [simpl; auto |].
  rewrite He. cbn [bind]. rewrite Hr. cbn [bind]. rewrite Hs. cbn [bind].
  rewrite IH by (intros k' b' Hin; apply H; simpl; auto). cbn [bind].
  now rewrite Hf, ball_set_same.
Qed.

Section Restore.

Context {phys : Physics}.

(** X9.  [timestamp] keeps the history in step: on a dictionary of balls
    (distinct keys) whose history lists all hold [n + 1] samples, the lists
    hold [n + 2] samples afterwards, and the state and rvw histories of every
    ball of the shot end with the ball's current state ([get_ball_state_history],
    [get_ball_rvw_history]). *)
Theorem timestamp_keeps_in_step (sys sys' : Shot) (dt : float) (e : option Event) :
  unique_keys (balls sys) -> aligned sys -> timestamp sys dt e = Ok sys' ->
  aligned sys' /\
  forall k b, dict_find k (balls sys') = Some b ->
    exists ss rs,
      get_ball_state_history sys' k = Ok (ss ++ [ball_s b]) /\
      get_ball_rvw_history sys' k = Ok (rs ++ [ball_rvw b]) /\
      get_ball_state_history sys k = Ok ss /\
      get_ball_rvw_history sys k = Ok rs.
Proof.
  intros U A H. destruct (timestamp_aligned _ _ _ _ U A H) as [A' Hb].
  split; [exact A' |]. intros k b Hk.
  destruct (Hb k b Hk) as (e0 & He0 & _ & _ & He0').
  exists (h_s e0), (h_rvw e0).
  unfold get_ball_state_history, get_ball_rvw_history, dict_get. rewrite He0, He0'.
  repeat split; reflexivity.
Qed.

(** X10.  Logging a sample and restoring it is the identity on the balls:
    right after [timestamp], [set_table_state_via_history] at the index just
    logged (or at [-1]) leaves the system as it is, and after the balls have
    been evolved by any [dt] it brings back exactly the logged balls. *)
Theorem timestamp_then_restore (sys sys' : Shot) (dt : float) (e : option Event) :
  unique_keys (balls sys) -> aligned sys -> timestamp sys dt e = Ok sys' ->
  set_table_state_via_history sys' (n sys') (history sys') = Ok sys' /\
  set_table_state_via_history sys' (-1) (history sys') = Ok sys' /\
  forall t,
    set_table_state_via_history (with_balls sys' (evolve_balls sys' t)) (n sys')
      (history sys') = Ok sys'.
Proof.
  intros U A H. destruct (timestamp_aligned _ _ _ _ U A H) as [A' Hb].
  destruct (timestamp_frame _ _ _ _ H) as (B & _ & _ & _ & _ & N & _).
  destruct A as (Hn & _).
  assert (U' : unique_keys (balls sys')) by now rewrite B.
  assert (Hidx : n sys' = Z.of_nat (Z.to_nat (n sys + 1))) by (rewrite Z2Nat.id; lia).
  assert (Hat : forall k b, In (k, b) (balls sys') ->
            exists e1, dict_find k (h_balls (history sys')) = Some e1 /\
              py_index (h_rvw e1) (n sys') = Ok (ball_rvw b) /\
              py_index (h_s e1) (n sys') = Ok (ball_s b)).
  { intros k b Hin. pose proof (dict_find_unique _ _ _ U' Hin) as Hk.
    destruct (Hb k b Hk) as (e0 & _ & Hs & Hr & He0).
    eexists. split; [exact He0 |]. cbn [h_s h_rvw]. rewrite Hidx.
    rewrite <- Hs at 2. rewrite <- Hr at 1. split; apply py_index_last. }
  assert (Hlast : forall k b, In (k, b) (balls sys') ->
            exists e1, dict_find k (h_balls (history sys')) = Some e1 /\
              py_index (h_rvw e1) (-1) = Ok (ball_rvw b) /\
              py_index (h_s e1) (-1) = Ok (ball_s b)).
  { intros k b Hin. pose proof (dict_find_unique _ _ _ U' Hin) as Hk.
    destruct (Hb k b Hk) as (e0 & _ & _ & _ & He0).
    eexists. split; [exact He0 |]. cbn [h_s h_rvw]. split; apply py_index_minus_one. }
  assert (Hid : map (fun kb : ident * Ball => (fst kb, snd kb)) (balls sys') = balls sys').
  { rewrite <- (map_id (balls sys')) at 2. apply map_ext. now intros [? ?]. }
  unfold set_table_state_via_history. repeat split.
  - rewrite <- Hid at 1.
    rewrite (set_state_loop_restore (fun b => b) _ _ _ (fun _ _ _ => eq_refl) Hat).
    cbn [bind]. now rewrite with_balls_same.
  - rewrite <- Hid at 1.
    rewrite (set_state_loop_restore (fun b => b) _ _ _ (fun _ _ _ => eq_refl) Hlast).
    cbn [bind]. now rewrite with_balls_same.
  - intros t. cbn [balls with_balls]. unfold evolve_balls.
    rewrite (set_state_loop_restore (evolve_ball sys' t) _ _ _ (fun _ _ _ => eq_refl) Hat).
    cbn [bind]. destruct sys'; reflexivity.
Qed.

End Restore.

(** [reset_history] on the recorded shot [bounce_recorded]. *)
Lemma reset_history_result_witness :
  reset_history bounce_recorded =
    Ok (mkShot (balls bounce_recorded) (table bounce_recorded) (g bounce_recorded) false
          (mkHistory
             (map (fun k => (k, mkBallHistory [] [])) (dict_keys (balls bounce_recorded)))
             [] [] [])
          (-1)%Z 0).
Proof. apply reset_history_result. distinct_keys. Defined.

(** [two_ball_started] holds one sample: index [0] is accepted, any other
    index but [-1] is not. *)
Lemma set_table_state_via_history_bounds_witness :
  (in_bounds 0 (n two_ball_started + 1) ->
   exists sys', set_table_state_via_history two_ball_started 0 (history two_ball_started) =
                  Ok sys' /\
     with_balls sys' (balls two_ball_started) = two_ball_started /\
     List.length (balls sys') = List.length (balls two_ball_started) /\
     forall i k b, nth_error (balls two_ball_started) i = Some (k, b) ->
       exists e rvw s, dict_find k (h_balls (history two_ball_started)) = Some e /\
         py_index (h_rvw e) 0 = Ok rvw /\ py_index (h_s e) 0 = Ok s /\
         nth_error (balls sys') i = Some (k, ball_set b rvw s)) /\
  (~ in_bounds 0 (n two_ball_started + 1) -> balls two_ball_started <> [] ->
   set_table_state_via_history two_ball_started 0 (history two_ball_started) =
     Raise IndexError).
Proof.
  apply (set_table_state_via_history_bounds two_ball_started 0).
  apply alignedb_aligned. vm_compute. reflexivity.
Defined.

(** The first [timestamp] of [simulate] on [two_ball_shot]. *)
Lemma timestamp_keeps_in_step_witness :
  aligned two_ball_started /\
  forall k b, dict_find k (balls two_ball_started) = Some b ->
    exists ss rs,
      get_ball_state_history two_ball_started k = Ok (ss ++ [ball_s b]) /\
      get_ball_rvw_history two_ball_started k = Ok (rs ++ [ball_rvw b]) /\
      get_ball_state_history two_ball_touched k = Ok ss /\
      get_ball_rvw_history two_ball_touched k = Ok rs.
Proof.
  apply (timestamp_keeps_in_step two_ball_touched two_ball_started 0 (Some initial_event)).
  - distinct_keys.
  - apply alignedb_aligned. vm_compute. reflexivity.
  - vm_compute. reflexivity.
Defined.

Lemma timestamp_then_restore_witness :
  set_table_state_via_history two_ball_started (n two_ball_started)
    (history two_ball_started) = Ok two_ball_started /\
  set_table_state_via_history two_ball_started (-1) (history two_ball_started) =
    Ok two_ball_started /\
  forall t,
    set_table_state_via_history
      (with_balls two_ball_started (evolve_balls two_ball_started t)) (n two_ball_started)
      (history two_ball_started) = Ok two_ball_started.
Proof.
  apply (timestamp_then_restore two_ball_touched two_ball_started 0 (Some initial_event)).
  - distinct_keys.
  - apply alignedb_aligned. vm_compute. reflexivity.
  - vm_compute. reflexivity.
Defined.

End HistoryFacts.

(** ** The event generators *)

Module GeneratorFacts.

Import Engine FloatOrder EngineFacts.

Local Open Scope float_scope.

(** *** More of the order of binary64 values *)

Lemma SFcompare_eq_lt (x y z : spec_float) :
  SFcompare x y = Some Eq -> SFcompare y z = Some Lt -> SFcompare x z = Some Lt.
Proof. sf_destruct3 x y z. Qed.

Lemma ltb_irrefl x : (x <? x) = false.
Proof. to_spec. destruct (SFcompare_refl (Prim2SF x)) as [-> | ->]; reflexivity. Qed.

Lemma ltb_trans x y z : (x <? y) = true -> (y <? z) = true -> (x <? z) = true.
Proof. intros H1 H2. apply (ltb_leb_trans x y z H1), ltb_leb, H2. Qed.

Lemma ltb_leb_false x y : (x <? y) = true -> (y <=? x) = false.
Proof.
  to_spec. rewrite (SFcompare_antisym (Prim2SF x) (Prim2SF y)).
  destruct (SFcompare _ _) as [[] |]; simpl; congruence.
Qed.

Lemma leb_ltb_trans x y z : (x <=? y) = true -> (y <? z) = true -> (x <? z) = true.
Proof.
  to_spec.
  destruct (SFcompare (Prim2SF x) (Prim2SF y)) as [[] |] eqn:E1; try discriminate;
    destruct (SFcompare (Prim2SF y) (Prim2SF z)) as [[] |] eqn:E2; try discriminate; intros _ _.
  - now rewrite (SFcompare_eq_lt _ _ _ E1 E2).
  - now rewrite (SFcompare_lt_trans _ _ _ E1 E2).
Qed.

(** Whatever is below some value is below [np.inf]. *)
Lemma ltb_below_infinity x y : (x <? y) = true -> (x <? infinity) = true.
Proof.
  to_spec. change (Prim2SF infinity) with (S754_infinity false).
  destruct (Prim2SF x) as [s | s | | s m e], (Prim2SF y) as [s' | s' | | s' m' e'];
    simpl; try congruence; destruct s; try reflexivity; try congruence;
    destruct s'; simpl; congruence.
Qed.

(** *** Folding [pick] *)

Lemma fold_pick_first_minimum {P : Type} (cands : list (float * P)) (init : float * P) :
  first_minimum init cands (fold_left pick cands init).
Proof.
  revert init. induction cands as [| c cs IH]; intros init.
  - left. split; [reflexivity | intros c []].
  - cbn [fold_left]. specialize (IH (pick init c)).
    remember (fold_left pick cs (pick init c)) as best eqn:Hbest. clear Hbest.
    unfold pick in IH. destruct (fst c <? fst init) eqn:E.
    + destruct IH as [[Hb Hall] | (l1 & l2 & Hcs & Hlt & H1 & H2)].
      * right. exists [], cs. subst best. split; [reflexivity |]. split; [exact E |].
        split; [intros ? [] | exact Hall].
      * right. exists (c :: l1), l2. split; [now rewrite Hcs |].
        split; [exact (ltb_trans _ _ _ Hlt E) |]. split; [| exact H2].
        intros c' [Hc' | Hc']; [subst c'; exact (ltb_leb_false _ _ Hlt) | now apply H1].
    + destruct IH as [[Hb Hall] | (l1 & l2 & Hcs & Hlt & H1 & H2)].
      * left. split; [exact Hb |]. intros c' [Hc' | Hc']; [subst c'; exact E | now apply Hall].
      * right. exists (c :: l1), l2. split; [now rewrite Hcs |]. split; [exact Hlt |].
        split; [| exact H2].
        intros c' [Hc' | Hc']; [subst c' | now apply H1].
        destruct (fst c <=? fst best) eqn:E2; [| reflexivity].
        pose proof (leb_ltb_trans _ _ _ E2 Hlt). congruence.
Qed.

Lemma fold_left_map_pick {A P : Type} (f : A -> float * P) (l : list A) (init : float * P) :
  fold_left (fun acc x => pick acc (f x)) l init = fold_left pick (map f l) init.
Proof.
  revert init. induction l as [| x l IH]; intros init; simpl; [reflexivity | apply IH].
Qed.

(** A first minimum below [np.inf] is one of the candidates. *)
Lemma first_minimum_candidate {P : Type} (init best : float * P) (cands : list (float * P)) :
  first_minimum init cands best -> fst init = infinity ->
  (fst best <? infinity) = true -> In best cands.
Proof.
  intros [[-> _] | (l1 & l2 & -> & _)] Hi Hlt.
  - rewrite Hi, ltb_irrefl in Hlt. discriminate.
  - apply in_or_app. simpl. auto.
Qed.

Section Generators.

Context {phys : Physics}.

(** *** The collision generators *)

Lemma get_min_ball_ball_event_time_pick (sys : Shot) :
  get_min_ball_ball_event_time sys =
    fold_left pick (map (ball_ball_candidate sys) (ball_ball_considered sys)) (infinity, []).
Proof.
  unfold get_min_ball_ball_event_time.
  rewrite ball_ball_loop_schedule, ball_ball_considered_schedule, <- fold_left_map_pick.
  apply fold_left_pointwise. reflexivity.
Qed.

Lemma get_min_ball_rail_event_time_pick (sys : Shot) :
  get_min_ball_rail_event_time sys =
    fold_left pick (map (ball_rail_candidate sys) (ball_rail_considered sys))
      (infinity, [None; None]).
Proof.
  unfold get_min_ball_rail_event_time.
  rewrite ball_rail_loop_schedule, ball_rail_considered_schedule, <- fold_left_map_pick.
  apply fold_left_pointwise. reflexivity.
Qed.

(** X11.  Each collision generator returns the first strict minimum of the
    collision times of the pairs it considers, in the order of its loops,
    with the ids of that pair: no earlier pair has a time less than or
    equal to it, no later pair a smaller one.  When no pair has a time below
    [np.inf] (no pair at all, or only [inf] and NaN times) it returns
    [np.inf] with its initial ids, [()] for balls and [(None, None)] for
    rails. *)
Theorem collision_generators_first_minimum (sys : Shot) :
  first_minimum (infinity, [])
    (map (ball_ball_candidate sys) (ball_ball_considered sys))
    (get_min_ball_ball_event_time sys) /\
  first_minimum (infinity, [None; None])
    (map (ball_rail_candidate sys) (ball_rail_considered sys))
    (get_min_ball_rail_event_time sys).
Proof.
  rewrite get_min_ball_ball_event_time_pick, get_min_ball_rail_event_time_pick.
  split; apply fold_pick_first_minimum.
Qed.

(** *** The motion generator *)

Lemma motion_compare_pick (acc : motion_acc) (ball : Ball) (t : float) (e : event_kind) :
  motion_best (motion_compare acc ball t e) =
    pick (motion_best acc) (t, (Some (ball_id ball), Some e)) /\
  m_last (motion_compare acc ball t e) = Some (t, e) /\
  (t <? m_tau_min (motion_compare acc ball t e)) = false.
Proof.
  unfold motion_compare, pick, motion_best. cbn [fst].
  destruct (t <? m_tau_min acc) eqn:E; cbn [m_tau_min m_ball_id m_event_type_min m_last];
    repeat split; try reflexivity; [apply ltb_irrefl | exact E].
Qed.

Lemma motion_candidates_cons (sys : Shot) (b : Ball) (bs : list Ball) :
  motion_candidates sys (b :: bs) = motion_candidates sys [b] ++ motion_candidates sys bs.
Proof. unfold motion_candidates. simpl. now rewrite app_nil_r. Qed.

Lemma motion_loop_bound (sys : Shot) (bs : list Ball) (acc : motion_acc)
  (tl : float) (el : event_kind) :
  m_last acc = Some (tl, el) -> (tl <? m_tau_min acc) = false ->
  exists acc', motion_loop sys bs acc = Ok acc' /\
    motion_best acc' = fold_left pick (motion_candidates sys bs) (motion_best acc).
Proof.
  revert acc tl el. induction bs as [| b bs IH]; intros acc tl el Hl Hi.
  - exists acc. split; reflexivity.
  - rewrite motion_candidates_cons, fold_left_app. cbn [motion_loop].
    unfold motion_step, motion_candidates at 2. cbn [flat_map]. rewrite app_nil_r.
    destruct (ball_s b) eqn:Es; cbn [bind fold_left].
    + exact (IH acc tl el Hl Hi).
    + match goal with |- context [motion_compare acc b ?t ?e] =>
        destruct (motion_compare_pick acc b t e) as (Hp & Hl' & Hi') end.
      rewrite <- Hp. eapply IH; eassumption.
    + match goal with |- context [motion_compare acc b ?t ?e] =>
        destruct (motion_compare_pick acc b t e) as (Hp & Hl' & Hi') end.
      rewrite <- Hp. eapply IH; eassumption.
    + match goal with |- context [motion_compare acc b ?t ?e] =>
        destruct (motion_compare_pick acc b t e) as (Hp & Hl' & Hi') end.
      rewrite <- Hp. eapply IH; eassumption.
    + rewrite Hl. cbn [bind]. unfold motion_compare. rewrite Hi.
      replace (motion_best acc)
        with (motion_best (mkMotionAcc (m_tau_min acc) (m_ball_id acc) (m_event_type_min acc)
                             (Some (tl, el)))) by reflexivity.
      eapply IH; [reflexivity | exact Hi].
    + rewrite Hl. cbn [bind]. unfold motion_compare. rewrite Hi.
      replace (motion_best acc)
        with (motion_best (mkMotionAcc (m_tau_min acc) (m_ball_id acc) (m_event_type_min acc)
                             (Some (tl, el)))) by reflexivity.
      eapply IH; [reflexivity | exact Hi].
Qed.

Lemma motion_loop_unbound (sys : Shot) (bs : list Ball) (acc : motion_acc) :
  m_last acc = None ->
  if hits_unbound bs then motion_loop sys bs acc = Raise UnboundLocalError
  else exists acc', motion_loop sys bs acc = Ok acc' /\
         motion_best acc' = fold_left pick (motion_candidates sys bs) (motion_best acc).
Proof.
  revert acc. induction bs as [| b bs IH]; intros acc Hl.
  - simpl. exists acc. split; reflexivity.
  - cbn [hits_unbound motion_loop]. rewrite motion_candidates_cons, fold_left_app.
    unfold motion_step, motion_candidates at 2. cbn [flat_map]. rewrite app_nil_r.
    destruct (ball_s b) eqn:Es; cbn [bind fold_left].
    + exact (IH acc Hl).
    + match goal with |- context [motion_compare acc b ?t ?e] =>
        destruct (motion_compare_pick acc b t e) as (Hp & Hl' & Hi') end.
      rewrite <- Hp. eapply motion_loop_bound; eassumption.
    + match goal with |- context [motion_compare acc b ?t ?e] =>
        destruct (motion_compare_pick acc b t e) as (Hp & Hl' & Hi') end.
      rewrite <- Hp. eapply motion_loop_bound; eassumption.
    + match goal with |- context [motion_compare acc b ?t ?e] =>
        destruct (motion_compare_pick acc b t e) as (Hp & Hl' & Hi') end.
      rewrite <- Hp. eapply motion_loop_bound; eassumption.
    + rewrite Hl. reflexivity.
    + rewrite Hl. reflexivity.
Qed.

Lemma get_min_motion_event_time_pick (sys : Shot) :
  hits_unbound (dict_values (balls sys)) = false ->
  exists t id e,
    get_min_motion_event_time sys = Ok (t, [id], e) /\
    (t, (id, e)) =
      fold_left pick (motion_candidates sys (dict_values (balls sys))) (infinity, (None, None)).
Proof.
  intros H. unfold get_min_motion_event_time.
  pose proof (motion_loop_unbound sys (dict_values (balls sys))
                (mkMotionAcc infinity None None None) eq_refl) as Hm.
  rewrite H in Hm. destruct Hm as (acc' & -> & Hb). cbn [bind].
  exists (m_tau_min acc'), (m_ball_id acc'), (m_event_type_min acc').
  split; [reflexivity | exact Hb].
Qed.

(** X12.  [get_min_motion_event_time] raises [UnboundLocalError] exactly
    when its loop meets a ball that is neither stationary, rolling, sliding
    nor spinning (a pocketed ball, say) before any rolling, sliding or
    spinning ball.  In every other case it returns the first strict minimum of
    the transition times of the rolling, sliding and spinning balls with that
    ball's id and transition, or [(inf, (None,), None)] when none is below
    [np.inf]: a ball in none of the four states is compared with the stale
    time of the ball before it and never wins. *)
Theorem get_min_motion_event_time_outcomes (sys : Shot) :
  (hits_unbound (dict_values (balls sys)) = true ->
   get_min_motion_event_time sys = Raise UnboundLocalError) /\
  (hits_unbound (dict_values (balls sys)) = false ->
   exists t id e,
     get_min_motion_event_time sys = Ok (t, [id], e) /\
     first_minimum (infinity, (None, None))
       (motion_candidates sys (dict_values (balls sys))) (t, (id, e))).
Proof.
  split; intros H.
  - unfold get_min_motion_event_time.
    pose proof (motion_loop_unbound sys (dict_values (balls sys))
                  (mkMotionAcc infinity None None None) eq_refl) as Hm.
    rewrite H in Hm. now rewrite Hm.
  - destruct (get_min_motion_event_time_pick sys H) as (t & id & e & H1 & H2).
    exists t, id, e. split; [exact H1 |]. rewrite H2. apply fold_pick_first_minimum.
Qed.

(** *** [get_next_event] *)

Lemma motion_candidates_in (sys : Shot) (bs : list Ball)
  (c : float * (option ident * option event_kind)) :
  In c (motion_candidates sys bs) ->
  exists b kind, In b bs /\ transition_of (ball_s b) = Some kind /\
    snd c = (Some (ball_id b), Some kind).
Proof.
  unfold motion_candidates. rewrite in_flat_map. intros (b & Hb & Hc).
  destruct (ball_s b) eqn:Es; try contradiction; destruct Hc as [<- | []];
    exists b; eexists; (split; [exact Hb |]); rewrite Es; split; reflexivity.
Qed.

Lemma ball_ball_schedule_lt (bs : list Ball) (p : (nat * Ball) * (nat * Ball)) :
  In p (ball_ball_schedule bs) -> (fst (fst p) < fst (snd p))%nat.
Proof.
  unfold ball_ball_schedule. rewrite in_flat_map. intros (ib1 & H1 & H).
  rewrite in_flat_map in H. destruct H as (ib2 & H2 & H).
  destruct (fst ib2 <=? fst ib1)%nat eqn:E; [contradiction |].
  destruct (is_stationary (snd ib1) && is_stationary (snd ib2)); [contradiction |].
  destruct H as [<- | []]. apply Nat.leb_gt in E. exact E.
Qed.

Lemma ball_rail_schedule_moving (bs : list Ball) (rs : list Rail)
  (p : (nat * Ball) * (nat * Rail)) :
  In p (ball_rail_schedule bs rs) -> ball_s (snd (fst p)) <> stationary.
Proof.
  unfold ball_rail_schedule. rewrite in_flat_map. intros (ib & H1 & H).
  destruct (is_stationary (snd ib)) eqn:E; [contradiction |].
  rewrite in_flat_map in H. destruct H as (ir & H2 & [<- | []]). cbn [fst snd].
  intros Hs. unfold is_stationary in E. rewrite Hs in E. discriminate.
Qed.

Lemma in_enumerate_pair {A : Type} (l : list A) (ia : nat * A) :
  In ia (enumerate l) -> nth_error l (fst ia) = Some (snd ia).
Proof. destruct ia as [i a]. apply in_enumerate_nth. Qed.

Lemma get_next_event_shape (sys : Shot) (ev : Event) :
  get_next_event sys = Ok ev -> well_formed sys ev.
Proof.
  unfold get_next_event.
  destruct (get_min_motion_event_time sys) as [[[t1 ids1] e1] | |] eqn:Hm; try discriminate.
  cbn [bind].
  assert (Hmotion : (t1 <? infinity) = true ->
            exists b kind, In b (dict_values (balls sys)) /\
              transition_of (ball_s b) = Some kind /\
              ids1 = [Some (ball_id b)] /\ e1 = Some kind).
  { intros Hlt.
    destruct (hits_unbound (dict_values (balls sys))) eqn:Hu.
    - unfold get_min_motion_event_time in Hm.
      pose proof (motion_loop_unbound sys (dict_values (balls sys))
                    (mkMotionAcc infinity None None None) eq_refl) as Hr.
      rewrite Hu in Hr. rewrite Hr in Hm. discriminate.
    - destruct (get_min_motion_event_time_pick sys Hu) as (t & id & e & H1 & H2).
      rewrite Hm in H1. inversion H1; subst t ids1 e.
      pose proof (fold_pick_first_minimum
                    (motion_candidates sys (dict_values (balls sys))) (infinity, (None, None)))
        as Hf.
      rewrite <- H2 in Hf.
      pose proof (first_minimum_candidate _ _ _ Hf eq_refl Hlt) as Hin.
      destruct (motion_candidates_in _ _ _ Hin) as (b & kind & Hb & Hk & Hs).
      cbn [snd] in Hs. inversion Hs; subst.
      exists b, kind. repeat split; assumption. }
  assert (Hbb : (fst (get_min_ball_ball_event_time sys) <? infinity) = true ->
            exists i j b1 b2, (i < j)%nat /\
              nth_error (dict_values (balls sys)) i = Some b1 /\
              nth_error (dict_values (balls sys)) j = Some b2 /\
              snd (get_min_ball_ball_event_time sys) = [Some (ball_id b1); Some (ball_id b2)]).
  { intros Hlt.
    pose proof (fold_pick_first_minimum
                  (map (ball_ball_candidate sys) (ball_ball_considered sys)) (infinity, []))
      as Hf.
    rewrite <- get_min_ball_ball_event_time_pick in Hf.
    pose proof (first_minimum_candidate _ _ _ Hf eq_refl Hlt) as Hin.
    apply in_map_iff in Hin. destruct Hin as (p & Hp & Hin).
    rewrite ball_ball_considered_schedule in Hin.
    destruct (ball_ball_schedule_in _ _ Hin) as [Hi Hj].
    exists (fst (fst p)), (fst (snd p)), (snd (fst p)), (snd (snd p)).
    split; [exact (ball_ball_schedule_lt _ _ Hin) |].
    split; [exact (in_enumerate_pair _ _ Hi) |].
    split; [exact (in_enumerate_pair _ _ Hj) |].
    now rewrite <- Hp. }
  assert (Hbr : (fst (get_min_ball_rail_event_time sys) <? infinity) = true ->
            exists b r, In b (dict_values (balls sys)) /\
              In r (dict_values (rails (table sys))) /\ ball_s b <> stationary /\
              snd (get_min_ball_rail_event_time sys) = [Some (ball_id b); Some (rail_id r)]).
  { intros Hlt.
    pose proof (fold_pick_first_minimum
                  (map (ball_rail_candidate sys) (ball_rail_considered sys))
                  (infinity, [None; None])) as Hf.
    rewrite <- get_min_ball_rail_event_time_pick in Hf.
    pose proof (first_minimum_candidate _ _ _ Hf eq_refl Hlt) as Hin.
    apply in_map_iff in Hin. destruct Hin as (p & Hp & Hin).
    rewrite ball_rail_considered_schedule in Hin.
    destruct (ball_rail_schedule_in _ _ _ Hin) as [Hi Hj].
    exists (snd (fst p)), (snd (snd p)).
    split; [exact (nth_error_In _ _ (in_enumerate_pair _ _ Hi)) |].
    split; [exact (nth_error_In _ _ (in_enumerate_pair _ _ Hj)) |].
    split; [exact (ball_rail_schedule_moving _ _ _ Hin) |].
    now rewrite <- Hp. }
  destruct (get_min_ball_ball_event_time sys) as [t2 ids2].
  destruct (get_min_ball_rail_event_time sys) as [t3 ids3].
  cbn [fst snd] in Hbb, Hbr.
  destruct (t1 <? infinity) eqn:C1.
  - destruct (t2 <? t1) eqn:C2.
    + destruct (t3 <? t2) eqn:C3; intros [= <-]; unfold well_formed;
        cbn [event_type tau agents].
      * split; [exact (ltb_below_infinity _ _ C3) |].
        destruct (Hbr (ltb_below_infinity _ _ C3)) as (b & r & Hb1 & Hb2 & Hb3 & Hb4).
        exists b, r. repeat split; assumption.
      * split; [exact (ltb_below_infinity _ _ C2) |].
        destruct (Hbb (ltb_below_infinity _ _ C2)) as (i & j & b1 & b2 & Hp1 & Hp2 & Hp3 & Hp4).
        exists i, j, b1, b2. repeat split; assumption.
    + destruct (t3 <? t1) eqn:C3; intros [= <-]; unfold well_formed;
        cbn [event_type tau agents].
      * split; [exact (ltb_below_infinity _ _ C3) |].
        destruct (Hbr (ltb_below_infinity _ _ C3)) as (b & r & Hb1 & Hb2 & Hb3 & Hb4).
        exists b, r. repeat split; assumption.
      * destruct (Hmotion eq_refl) as (b & kind & Hb & Hk & -> & ->).
        destruct kind;
          try (split; [exact C1 | exists b; repeat split; [exact Hb | exact Hk]]).
        -- destruct (ball_s b); discriminate.
        -- destruct (ball_s b); discriminate.
  - destruct (t2 <? infinity) eqn:C2.
    + destruct (t3 <? t2) eqn:C3; intros [= <-]; unfold well_formed;
        cbn [event_type tau agents].
      * split; [exact (ltb_below_infinity _ _ C3) |].
        destruct (Hbr (ltb_below_infinity _ _ C3)) as (b & r & Hb1 & Hb2 & Hb3 & Hb4).
        exists b, r. repeat split; assumption.
      * split; [exact C2 |].
        destruct (Hbb eq_refl) as (i & j & b1 & b2 & Hp1 & Hp2 & Hp3 & Hp4).
        exists i, j, b1, b2. repeat split; assumption.
    + destruct (t3 <? infinity) eqn:C3; intros [= <-]; unfold well_formed;
        cbn [event_type tau agents].
      * split; [exact C3 |].
        destruct (Hbr eq_refl) as (b & r & Hb1 & Hb2 & Hb3 & Hb4).
        exists b, r. repeat split; assumption.
      * split; reflexivity.
Qed.

Lemma get_next_event_at_infinity (sys : Shot) (ev : Event) :
  get_next_event sys = Ok ev -> (tau ev <? infinity) = false -> ev = mkEvent None [] infinity.
Proof.
  unfold get_next_event.
  destruct (get_min_motion_event_time sys) as [[[t1 ids1] e1] | |]; try discriminate.
  cbn [bind].
  destruct (get_min_ball_ball_event_time sys) as [t2 ids2].
  destruct (get_min_ball_rail_event_time sys) as [t3 ids3].
  destruct (t1 <? infinity) eqn:C1.
  - destruct (t2 <? t1) eqn:C2.
    + destruct (t3 <? t2) eqn:C3; intros [= <-]; cbn [tau]; intros H.
      * rewrite (ltb_below_infinity _ _ C3) in H. discriminate.
      * rewrite (ltb_below_infinity _ _ C2) in H. discriminate.
    + destruct (t3 <? t1) eqn:C3; intros [= <-]; cbn [tau]; intros H.
      * rewrite (ltb_below_infinity _ _ C3) in H. discriminate.
      * congruence.
  - destruct (t2 <? infinity) eqn:C2.
    + destruct (t3 <? t2) eqn:C3; intros [= <-]; cbn [tau]; intros H.
      * rewrite (ltb_below_infinity _ _ C3) in H. discriminate.
      * congruence.
    + destruct (t3 <? infinity) eqn:C3; intros [= <-]; cbn [tau]; intros H.
      * congruence.
      * reflexivity.
Qed.

(** X13.  Every event [get_next_event] returns is well formed.  Either it
    has no type, no agents and [tau = inf]; or its [tau] is below [np.inf]
    and it is a transition of a ball of the shot that is in the matching
    state, with that ball's id as its one agent, or a ball-ball event
    with the ids of two balls at positions [i < j] of [self.balls], or a
    ball-rail event with the id of a non-stationary ball and of a rail of the
    table.  An event whose [tau] is not below [np.inf] is the event without
    type: [tau] is never NaN. *)
Theorem get_next_event_well_formed (sys : Shot) (ev : Event) :
  get_next_event sys = Ok ev ->
  well_formed sys ev /\
  ((tau ev <? infinity) = false -> ev = mkEvent None [] infinity).
Proof.
  intros H. split; [exact (get_next_event_shape sys ev H) |].
  exact (get_next_event_at_infinity sys ev H).
Qed.

End Generators.

(** The first event of [bounce_shot]: the impact on the right rail. *)
Lemma get_next_event_well_formed_witness :
  well_formed bounce_started right_hit /\
  ((tau right_hit <? infinity) = false -> right_hit = mkEvent None [] infinity).
Proof.
  apply (get_next_event_well_formed bounce_started right_hit). vm_compute. reflexivity.
Defined.

End GeneratorFacts.

(** ** One iteration and a whole run *)

Module RunFacts.

Import Engine FloatOrder EngineFacts HistoryFacts GeneratorFacts.

Local Open Scope float_scope.

Lemma keyed_find {A : Type} (idf : A -> ident) (d : list (ident * A)) (a : A) :
  Forall (fun ka => fst ka = idf (snd ka)) d -> In a (dict_values d) ->
  exists a', dict_find (idf a) d = Some a'.
Proof.
  intros HF Hin. unfold dict_values in Hin. apply in_map_iff in Hin.
  destruct Hin as ([k a0] & Ha & Hin). cbn [snd] in Ha. subst a0.
  rewrite Forall_forall in HF. pose proof (HF _ Hin) as Hk. cbn [fst snd] in Hk.
  destruct (dict_find (idf a) d) eqn:E; [eauto |].
  apply dict_find_None_iff in E. exfalso. apply E. unfold dict_keys.
  apply in_map_iff. exists (k, a). split; [exact Hk | exact Hin].
Qed.

Lemma dict_update_ids (k : ident) (rvw : RVW) (s : motion_state) (d : list (ident * Ball)) :
  map (fun kb => (fst kb, ball_id (snd kb))) (dict_update k (fun b => ball_set b rvw s) d) =
  map (fun kb => (fst kb, ball_id (snd kb))) d.
Proof.
  induction d as [| [k0 b0] d IH]; simpl; [reflexivity |].
  destruct (String.eqb k k0); simpl; [reflexivity | now rewrite IH].
Qed.

Lemma keyed_of_ids (d d' : list (ident * Ball)) :
  map (fun kb => (fst kb, ball_id (snd kb))) d' = map (fun kb => (fst kb, ball_id (snd kb))) d ->
  Forall (fun kb => fst kb = ball_id (snd kb)) d ->
  Forall (fun kb => fst kb = ball_id (snd kb)) d'.
Proof.
  intros Hm HF.
  assert (H : forall l : list (ident * Ball),
            Forall (fun kb => fst kb = ball_id (snd kb)) l <->
            Forall (fun p : ident * ident => fst p = snd p)
              (map (fun kb => (fst kb, ball_id (snd kb))) l)).
  { intros l. rewrite Forall_map. reflexivity. }
  apply H. rewrite Hm. apply H. exact HF.
Qed.

Lemma keys_of_ids (d d' : list (ident * Ball)) :
  map (fun kb => (fst kb, ball_id (snd kb))) d' = map (fun kb => (fst kb, ball_id (snd kb))) d ->
  dict_keys d' = dict_keys d.
Proof.
  intros H. unfold dict_keys.
  change (map fst d') with (map (fun kb : ident * Ball => fst (fst kb, ball_id (snd kb))) d').
  change (map fst d) with (map (fun kb : ident * Ball => fst (fst kb, ball_id (snd kb))) d).
  rewrite <- !(map_map (fun kb : ident * Ball => (fst kb, ball_id (snd kb))) fst).
  now rewrite H.
Qed.

Section Run.

Context {phys : Physics}.

Lemma evolve_balls_ids (sys : Shot) (dt : float) :
  map (fun kb => (fst kb, ball_id (snd kb))) (evolve_balls sys dt) =
  map (fun kb => (fst kb, ball_id (snd kb))) (balls sys).
Proof. unfold evolve_balls. rewrite map_map. reflexivity. Qed.

Lemma resolve_ids (sys sys' : Shot) (ev : Event) :
  resolve sys ev = Ok sys' ->
  map (fun kb => (fst kb, ball_id (snd kb))) (balls sys') =
  map (fun kb => (fst kb, ball_id (snd kb))) (balls sys).
Proof.
  unfold resolve. destruct (event_type ev) as [[] |]; try (now intros [= <-]).
  - destruct (agents ev) as [| k1 [| k2 [| ? ?]]]; try discriminate.
    destruct (dict_get k1 _) as [b1 | |]; cbn [bind]; try discriminate.
    destruct (dict_get k2 _) as [b2 | |]; cbn [bind]; try discriminate.
    destruct (resolve_ball_ball_collision _ _) as [r1 r2].
    destruct k1 as [k1 |], k2 as [k2 |]; try discriminate.
    intros [= <-]. cbn [balls with_balls]. now rewrite !dict_update_ids.
  - destruct (agents ev) as [| k1 [| k2 [| ? ?]]]; try discriminate.
    destruct (dict_get k1 _) as [b1 | |]; cbn [bind]; try discriminate.
    destruct (dict_get k2 _) as [b2 | |]; cbn [bind]; try discriminate.
    destruct k1 as [k1 |]; try discriminate.
    intros [= <-]. cbn [balls with_balls]. now rewrite dict_update_ids.
Qed.

Lemma iteration_inv (sys sys' : Shot) (ev : Event) :
  iteration sys = Ok (sys', ev) ->
  get_next_event sys = Ok ev /\
  exists sys2,
    resolve (with_balls sys (evolve_balls sys (tau ev))) ev = Ok sys2 /\
    timestamp sys2 (tau ev) (Some ev) = Ok sys'.
Proof.
  unfold iteration. intros H.
  destruct (get_next_event sys) as [ev1 | |] eqn:Hev; cbn [bind] in H; try discriminate.
  unfold evolve in H.
  destruct (resolve _ ev1) as [sys2 | |] eqn:Hres; cbn [bind] in H; try discriminate.
  destruct (timestamp sys2 _ _) as [sys3 | |] eqn:Hts; cbn [bind] in H; try discriminate.
  inversion H; subst sys3 ev1. split; [reflexivity |]. eauto.
Qed.

Lemma iteration_ids (sys sys' : Shot) (ev : Event) :
  iteration sys = Ok (sys', ev) ->
  map (fun kb => (fst kb, ball_id (snd kb))) (balls sys') =
  map (fun kb => (fst kb, ball_id (snd kb))) (balls sys) /\
  table sys' = table sys /\ g sys' = g sys.
Proof.
  intros H. destruct (iteration_inv _ _ _ H) as (_ & sys2 & Hres & Hts).
  destruct (timestamp_frame _ _ _ _ Hts) as (B & T & G & _).
  destruct (resolve_fields _ _ _ Hres) as (T2 & G2 & _).
  rewrite B, T, G, T2, G2, (resolve_ids _ _ _ Hres). cbn [balls table g with_balls].
  split; [apply evolve_balls_ids | auto].
Qed.

Lemma get_next_event_ok (sys : Shot) :
  hits_unbound (dict_values (balls sys)) = false -> exists ev, get_next_event sys = Ok ev.
Proof.
  intros H. destruct (get_min_motion_event_time_pick sys H) as (t & id & e & Hm & _).
  unfold get_next_event. rewrite Hm. cbn [bind].
  destruct (get_min_ball_ball_event_time sys) as [t2 ids2].
  destruct (get_min_ball_rail_event_time sys) as [t3 ids3].
  destruct (t <? infinity).
  - destruct (t2 <? t); destruct (t3 <? _); eauto.
  - destruct (t2 <? infinity); destruct (t3 <? _); eauto.
Qed.

Lemma resolve_ok (sys sys1 : Shot) (ev : Event) :
  well_formed sys ev ->
  map (fun kb => (fst kb, ball_id (snd kb))) (balls sys1) =
    map (fun kb => (fst kb, ball_id (snd kb))) (balls sys) ->
  table sys1 = table sys ->
  keyed_by_id sys ->
  exists sys2, resolve sys1 ev = Ok sys2.
Proof.
  intros Hwf Hids Ht [Kb Kr].
  assert (Hfind : forall b, In b (dict_values (balls sys)) ->
            exists b', dict_find (ball_id b) (balls sys1) = Some b').
  { intros b Hb. destruct (keyed_find ball_id _ b Kb Hb) as (b' & Hb').
    destruct (dict_find (ball_id b) (balls sys1)) eqn:E; [eauto |].
    apply dict_find_None_iff in E. rewrite (keys_of_ids _ _ Hids) in E.
    apply dict_find_None_iff in E. congruence. }
  unfold well_formed in Hwf. unfold resolve.
  destruct (event_type ev) as [[] |]; try (eexists; reflexivity).
  - destruct Hwf as (_ & i & j & b1 & b2 & _ & H1 & H2 & ->).
    destruct (Hfind b1 (nth_error_In _ _ H1)) as (b1' & E1).
    destruct (Hfind b2 (nth_error_In _ _ H2)) as (b2' & E2).
    cbn [dict_get]. rewrite E1, E2. cbn [bind].
    destruct (resolve_ball_ball_collision _ _) as [r1 r2]. eexists; reflexivity.
  - destruct Hwf as (_ & b & r & Hb & Hr & _ & ->).
    destruct (Hfind b Hb) as (b' & E1).
    destruct (keyed_find rail_id _ r Kr Hr) as (r' & E2).
    cbn [dict_get]. rewrite E1, Ht, E2. cbn [bind]. eexists; reflexivity.
Qed.

(** X14.  One iteration of the loop of [simulate] never raises on a shot
    whose history is not vectorized and has an entry for every ball, whose
    balls are stored under their ids and rails under theirs, and whose motion
    generator does not meet an undispatched state first: it returns a well
    formed event and a shot with one more sample, the same keys, that is again
    unvectorized, covered and keyed by id. *)
Theorem iteration_returns (sys : Shot) :
  vectorized sys = false -> covered sys -> keyed_by_id sys ->
  hits_unbound (dict_values (balls sys)) = false ->
  exists sys' ev,
    iteration sys = Ok (sys', ev) /\ well_formed sys ev /\
    vectorized sys' = false /\ covered sys' /\ keyed_by_id sys' /\
    dict_keys (balls sys') = dict_keys (balls sys) /\ n sys' = (n sys + 1)%Z.
Proof.
  intros V C K U. destruct (get_next_event_ok sys U) as (ev & Hev).
  pose proof (get_next_event_shape sys ev Hev) as Hwf.
  set (sys1 := with_balls sys (evolve_balls sys (tau ev))).
  destruct (resolve_ok sys sys1 ev Hwf (evolve_balls_ids sys (tau ev)) eq_refl K)
    as (sys2 & Hres).
  destruct (resolve_fields _ _ _ Hres) as (T2 & G2 & V2 & H2 & N2 & _ & K2).
  assert (C2 : covered sys2).
  { unfold covered. rewrite K2, H2. unfold sys1. cbn [balls with_balls history].
    rewrite (keys_of_ids _ _ (evolve_balls_ids sys (tau ev))). exact C. }
  assert (V2' : vectorized sys2 = false) by (rewrite V2; exact V).
  destruct (timestamp_ok sys2 (tau ev) (Some ev) V2' C2) as (sys' & Hts & C').
  assert (Hit : iteration sys = Ok (sys', ev)).
  { unfold iteration, evolve. rewrite Hev. cbn [bind]. fold sys1. rewrite Hres. cbn [bind].
    rewrite Hts. reflexivity. }
  destruct (iteration_ids _ _ _ Hit) as (I & T & _).
  destruct (timestamp_frame _ _ _ _ Hts) as (_ & _ & _ & V' & _ & N' & _).
  exists sys', ev. split; [exact Hit |]. split; [exact Hwf |]. split; [exact V' |].
  split; [exact C' |]. split; [| split].
  - destruct K as [Kb Kr]. split; [exact (keyed_of_ids _ _ I Kb) | now rewrite T].
  - exact (keys_of_ids _ _ I).
  - rewrite N', N2. reflexivity.
Qed.

(** *** A history is closed by [simulate] *)

Lemma simulate_raises_on_vectorized (fuel : nat) (tb : option float) (sys : Shot) :
  vectorized sys = true -> simulate fuel tb sys = Raise AttributeError.
Proof.
  intros V. unfold simulate.
  destruct (touch_history_ok sys) as (sys0 & H0 & S0 & _). rewrite H0. cbn [bind].
  destruct S0 as (_ & _ & _ & V0 & _). unfold timestamp. rewrite V0, V. reflexivity.
Qed.

Lemma simulate_vectorized (fuel : nat) (tb : option float) (sys sys' : Shot) :
  simulate fuel tb sys = Ok sys' -> vectorized sys' = true.
Proof.
  unfold simulate.
  destruct (touch_history sys) as [sys0 | |]; cbn [bind]; try discriminate.
  destruct (timestamp sys0 _ _) as [sys1 | |]; cbn [bind]; try discriminate.
  destruct (simulate_loop _ _ _ _) as [sys2 | |]; cbn [bind]; try discriminate.
  now intros [= <-].
Qed.

(** X15.  [simulate] closes the history: it raises [AttributeError] on a
    vectorized history, and whenever it returns the history is vectorized, so
    that a second [simulate] (with any bound), a [timestamp] and a logging
    [evolve] on the result all raise [AttributeError]. *)
Theorem simulate_closes_history (sys : Shot) :
  (vectorized sys = true ->
   forall fuel tb, simulate fuel tb sys = Raise AttributeError) /\
  (forall fuel tb sys', simulate fuel tb sys = Ok sys' ->
     vectorized sys' = true /\
     (forall fuel' tb', simulate fuel' tb' sys' = Raise AttributeError) /\
     (forall dt e, timestamp sys' dt e = Raise AttributeError) /\
     (forall dt, evolve sys' dt true None = Raise AttributeError)).
Proof.
  split.
  - intros V fuel tb. now apply simulate_raises_on_vectorized.
  - intros fuel tb sys' H. pose proof (simulate_vectorized _ _ _ _ H) as V.
    split; [exact V |]. split; [| split].
    + intros fuel' tb'. now apply simulate_raises_on_vectorized.
    + intros dt e. unfold timestamp. now rewrite V.
    + intros dt. unfold evolve. cbn [bind]. unfold timestamp. cbn [vectorized with_balls].
      now rewrite V.
Qed.

(** *** The shape of the history [simulate] leaves *)

Lemma aligned_transfer (sys sys2 : Shot) :
  aligned sys -> dict_keys (balls sys2) = dict_keys (balls sys) ->
  history sys2 = history sys -> n sys2 = n sys -> aligned sys2.
Proof. unfold aligned. intros H K Hh N. rewrite K, Hh, N. exact H. Qed.

Lemma timestamp_recording (sys sys' : Shot) (dt : float) (e : option Event) :
  recording sys -> timestamp sys dt e = Ok sys' ->
  recording sys' /\ balls sys' = balls sys /\ n sys' = (n sys + 1)%Z /\
  h_event (history sys') = h_event (history sys) ++ [e] /\
  h_time (history sys') = h_time (history sys) ++ [time sys'].
Proof.
  intros (V & U & A & I) H.
  destruct (timestamp_aligned _ _ _ _ U A H) as [A' _].
  destruct (timestamp_frame _ _ _ _ H) as (B & _ & _ & V' & _ & N & Tm & Ix & T & E).
  destruct A as (Hn & _).
  split; [| rewrite Tm; auto].
  split; [exact V' |]. split; [now rewrite B |]. split; [exact A' |].
  unfold index_range in *. rewrite Ix, I, N, (next_length _ Hn), seq_S, map_app.
  cbn [map Nat.add]. rewrite Z2Nat.id by lia. reflexivity.
Qed.

Lemma evolve_recording (sys sys' : Shot) (dt : float) (ev : option Event) :
  recording sys -> evolve sys dt true ev = Ok sys' ->
  recording sys' /\ dict_keys (balls sys') = dict_keys (balls sys) /\
  n sys' = (n sys + 1)%Z /\
  h_event (history sys') = h_event (history sys) ++ [ev] /\
  h_time (history sys') = h_time (history sys) ++ [time sys'].
Proof.
  intros (V & U & A & I) H. unfold evolve in H.
  set (sys1 := with_balls sys (evolve_balls sys dt)) in H.
  assert (K1 : dict_keys (balls sys1) = dict_keys (balls sys))
    by exact (keys_of_ids _ _ (evolve_balls_ids sys dt)).
  assert (H2 : exists sys2, timestamp sys2 dt ev = Ok sys' /\
            dict_keys (balls sys2) = dict_keys (balls sys) /\
            vectorized sys2 = vectorized sys /\ history sys2 = history sys /\ n sys2 = n sys).
  { destruct ev as [e |].
    - destruct (resolve sys1 e) as [sys2 | |] eqn:Hres; cbn [bind] in H; try discriminate.
      destruct (resolve_fields _ _ _ Hres) as (_ & _ & V2 & Hh & N2 & _ & K2).
      exists sys2. rewrite K2, K1, V2, Hh, N2. auto.
    - cbn [bind] in H. exists sys1. auto. }
  destruct H2 as (sys2 & Hts & K2 & V2 & Hh & N2).
  assert (R2 : recording sys2).
  { split; [congruence |]. split; [unfold unique_keys; now rewrite K2 |].
    split; [exact (aligned_transfer _ _ A K2 Hh N2) |].
    unfold index_range. now rewrite Hh, N2. }
  destruct (timestamp_recording _ _ _ _ R2 Hts) as (R' & B' & N' & E' & T').
  split; [exact R' |]. rewrite B', K2, N', N2, E', T', Hh. auto.
Qed.

Lemma iteration_recording (sys sys' : Shot) (ev : Event) :
  recording sys -> iteration sys = Ok (sys', ev) ->
  recording sys' /\ dict_keys (balls sys') = dict_keys (balls sys) /\
  n sys' = (n sys + 1)%Z /\
  h_event (history sys') = h_event (history sys) ++ [Some ev] /\
  h_time (history sys') = h_time (history sys) ++ [time sys'].
Proof.
  intros R H. apply (evolve_recording sys sys' (tau ev) (Some ev) R).
  unfold iteration in H.
  destruct (get_next_event sys) as [ev1 | |]; cbn [bind] in H; try discriminate.
  destruct (evolve sys (tau ev1) true (Some ev1)) as [s | |] eqn:E; cbn [bind] in H;
    try discriminate.
  inversion H; subst. exact E.
Qed.

Lemma last_time_app (sys' : Shot) (l : list float) :
  h_time (history sys') = l ++ [time sys'] -> last_time sys'.
Proof. intros H. exists l. exact H. Qed.

Lemma simulate_loop_recording (fuel : nat) (tb : option float) (sys sys' : Shot) (ev : Event) :
  recording sys -> simulate_loop fuel tb sys ev = Ok sys' ->
  recording sys' /\ dict_keys (balls sys') = dict_keys (balls sys) /\
  (last_time sys -> last_time sys') /\
  exists evs,
    h_event (history sys') = h_event (history sys) ++ map Some evs /\
    n sys' = (n sys + Z.of_nat (List.length evs))%Z /\
    ((tau ev <? infinity) = true -> evs <> []).
Proof.
  revert sys ev. induction fuel as [| fuel IH]; intros sys ev R H; cbn [simulate_loop] in H.
  - destruct (tau ev <? infinity); [discriminate |]. inversion H; subst sys'.
    split; [exact R |]. split; [reflexivity |]. split; [auto |].
    exists []. cbn [map List.length]. rewrite app_nil_r, Z.add_0_r.
    split; [reflexivity |]. split; [reflexivity | discriminate].
  - destruct (tau ev <? infinity).
    + destruct (iteration sys) as [[s1 e1] | |] eqn:Hit; cbn [bind] in H; try discriminate.
      destruct (iteration_recording _ _ _ R Hit) as (R1 & K1 & N1 & E1 & T1).
      destruct (bound_reached tb s1).
      * inversion H; subst sys'. split; [exact R1 |]. split; [exact K1 |].
        split; [intros _; exact (last_time_app _ _ T1) |].
        exists [e1]. cbn [map List.length]. split; [exact E1 |].
        split; [rewrite N1; reflexivity | discriminate].
      * destruct (IH s1 e1 R1 H) as (R' & K' & L' & evs & E' & N' & _).
        split; [exact R' |]. split; [congruence |].
        split; [intros _; exact (L' (last_time_app _ _ T1)) |].
        exists (e1 :: evs). cbn [map List.length].
        rewrite E', E1, <- app_assoc, N', N1. cbn [app].
        split; [reflexivity |]. split; [lia | discriminate].
    + inversion H; subst sys'.
      split; [exact R |]. split; [reflexivity |]. split; [auto |].
      exists []. cbn [map List.length]. rewrite app_nil_r, Z.add_0_r.
      split; [reflexivity |]. split; [reflexivity | discriminate].
Qed.

Lemma touch_history_blank (sys sys0 : Shot) :
  vectorized sys = false -> unique_keys (balls sys) -> blank sys ->
  touch_history sys = Ok sys0 ->
  recording sys0 /\ same_but_ball_history sys sys0.
Proof.
  intros V U (N & I & T & E & Hb) H.
  destruct (touch_history_loop_find (dict_keys (balls sys)) sys (incl_refl _))
    as (sys0' & H1 & S & F).
  unfold touch_history in H. rewrite H1 in H. inversion H; subst sys0'. clear H.
  split; [| exact S].
  destruct S as (B0 & _ & _ & V0 & N0 & _ & I0 & T0 & E0).
  split; [congruence |]. split; [now rewrite B0 |]. split.
  - unfold aligned. rewrite N0, N, I0, I, T0, T, E0, E, B0. cbn [List.length].
    change (Z.to_nat (-1 + 1)) with O. split; [lia |]. repeat split.
    intros k Hk. rewrite F. rewrite N.
    destruct (dict_find k (h_balls (history sys))) as [e |] eqn:Ek.
    + rewrite (Hb k e Ek). eexists. split; [reflexivity |]. split; reflexivity.
    + destruct (in_dec string_dec k (dict_keys (balls sys))); [| contradiction].
      eexists. split; [reflexivity |]. split; reflexivity.
  - unfold index_range. rewrite I0, I, N0, N. reflexivity.
Qed.

(** X16.  The history [simulate] leaves of a shot that starts without
    samples.  It is vectorized and in step: every list, those of every ball
    included, has [n + 1 >= 2] samples; [history['index']] is [0 .. n]; the
    first logged event is [Event(None, (), 0)] and every entry of
    [history['event']] is an [Event], so that [get_event_history_for_ball]
    returns for every ball; the last logged time is [self.time]; the keys of
    [self.balls] are unchanged. *)
Theorem simulate_history_shape (fuel : nat) (tb : option float) (sys sys' : Shot) :
  unique_keys (balls sys) -> blank sys -> simulate fuel tb sys = Ok sys' ->
  vectorized sys' = true /\ aligned sys' /\ index_range sys' /\ (1 <= n sys')%Z /\
  dict_keys (balls sys') = dict_keys (balls sys) /\ last_time sys' /\
  exists evs,
    h_event (history sys') = map Some (initial_event :: evs) /\
    List.length evs = Z.to_nat (n sys') /\
    forall k, get_event_history_for_ball sys' k =
      Ok (filter (fun e => existsb (agent_is k) (agents e)) (initial_event :: evs)).
Proof.
  intros U Bl H. unfold simulate in H.
  destruct (touch_history sys) as [sys0 | |] eqn:H0; cbn [bind] in H; try discriminate.
  destruct (timestamp sys0 0 (Some initial_event)) as [sys1 | |] eqn:H1; cbn [bind] in H;
    try discriminate.
  destruct (simulate_loop fuel tb sys1 initial_event) as [sys2 | |] eqn:H2; cbn [bind] in H;
    try discriminate.
  inversion H; subst sys'. clear H.
  assert (V : vectorized sys = false).
  { destruct (touch_history_ok sys) as (s & Hs & S & _). rewrite H0 in Hs.
    inversion Hs; subst s. destruct S as (_ & _ & _ & V0 & _).
    destruct (timestamp_frame _ _ _ _ H1) as (_ & _ & _ & _ & V1 & _). congruence. }
  destruct (touch_history_blank _ _ V U Bl H0) as (R0 & S0).
  destruct S0 as (B0 & _ & _ & _ & N0 & _ & _ & _ & E0).
  destruct Bl as (N & _ & _ & E & _).
  destruct (timestamp_recording _ _ _ _ R0 H1) as (R1 & B1 & N1 & E1 & T1).
  destruct (simulate_loop_recording _ _ _ _ _ R1 H2) as (R2 & K2 & L2 & evs & E2 & N2 & Hne).
  destruct R2 as (_ & _ & A2 & I2).
  assert (Hn : n sys2 = Z.of_nat (List.length evs)) by (rewrite N2, N1, N0, N; lia).
  assert (Hev : h_event (history sys2) = map Some (initial_event :: evs)).
  { rewrite E2, E1, E0, E. reflexivity. }
  split; [reflexivity |]. split; [exact A2 |]. split; [exact I2 |].
  split; [| split; [| split]].
  - change (1 <= n sys2)%Z. rewrite Hn.
    destruct evs; [exfalso; apply Hne; reflexivity | cbn [List.length]; lia].
  - change (dict_keys (balls sys2) = dict_keys (balls sys)). rewrite K2, B1, B0. reflexivity.
  - destruct (L2 (last_time_app _ _ T1)) as (ts & Hts). exists ts. exact Hts.
  - exists evs. change (history (vectorize_history sys2)) with (history sys2).
    change (n (vectorize_history sys2)) with (n sys2).
    split; [exact Hev |]. split; [rewrite Hn; lia |].
    intros k. unfold get_event_history_for_ball.
    change (history (vectorize_history sys2)) with (history sys2). rewrite Hev.
    apply event_history_loop_filter.
Qed.

(** *** How an unbounded run ends *)

Lemma simulate_loop_unbounded_last (fuel : nat) (sys sys' : Shot) (ev : Event) :
  simulate_loop fuel None sys ev = Ok sys' -> (tau ev <? infinity) = true ->
  exists sysp, iteration sysp = Ok (sys', mkEvent None [] infinity).
Proof.
  revert sys ev. induction fuel as [| fuel IH]; intros sys ev H Hlt; cbn [simulate_loop] in H;
    rewrite Hlt in H; [discriminate |].
  destruct (iteration sys) as [[s1 e1] | |] eqn:Hit; cbn [bind] in H; try discriminate.
  cbn [bound_reached] in H.
  destruct (tau e1 <? infinity) eqn:E1.
  - exact (IH s1 e1 H E1).
  - assert (Hs : sys' = s1).
    { destruct fuel; cbn [simulate_loop] in H; rewrite E1 in H; now inversion H. }
    subst s1. exists sys.
    destruct (iteration_inv _ _ _ Hit) as (Hev & _).
    rewrite <- (get_next_event_at_infinity _ _ Hev E1). exact Hit.
Qed.

(** X17.  When [simulate] returns without a time bound, its last iteration
    was for the event [Event(None, (), inf)]: the balls of the result are the
    balls before that iteration each evolved by [dt = inf], the last logged
    event is that event, and the last logged time, which is [self.time], is
    the time before plus [inf]. *)
Theorem simulate_unbounded_ends_at_infinity (fuel : nat) (sys sys' : Shot) :
  simulate fuel None sys = Ok sys' ->
  exists sysp sysl,
    iteration sysp = Ok (sysl, mkEvent None [] infinity) /\
    sys' = vectorize_history sysl /\
    balls sys' = evolve_balls sysp infinity /\
    time sys' = time sysp + infinity /\
    h_event (history sys') = h_event (history sysp) ++ [Some (mkEvent None [] infinity)] /\
    h_time (history sys') = h_time (history sysp) ++ [time sysp + infinity].
Proof.
  intros H. unfold simulate in H.
  destruct (touch_history sys) as [sys0 | |]; cbn [bind] in H; try discriminate.
  destruct (timestamp sys0 0 (Some initial_event)) as [sys1 | |]; cbn [bind] in H;
    try discriminate.
  destruct (simulate_loop fuel None sys1 initial_event) as [sys2 | |] eqn:H2; cbn [bind] in H;
    try discriminate.
  inversion H; subst sys'. clear H.
  destruct (simulate_loop_unbounded_last _ _ _ _ H2 eq_refl) as (sysp & Hit).
  exists sysp, sys2. split; [exact Hit |]. split; [reflexivity |].
  destruct (iteration_inv _ _ _ Hit) as (_ & s2 & Hres & Hts).
  cbn [tau] in Hres, Hts. unfold resolve in Hres. cbn [event_type] in Hres.
  inversion Hres; subst s2. clear Hres.
  destruct (timestamp_frame _ _ _ _ Hts) as (B & _ & _ & _ & _ & _ & Tm & _ & T & E).
  change (balls (vectorize_history sys2)) with (balls sys2).
  change (time (vectorize_history sys2)) with (time sys2).
  change (history (vectorize_history sys2)) with (history sys2).
  rewrite B, Tm, T, E. cbn [balls with_balls time history]. auto.
Qed.

(** *** [continuize] *)

Lemma set_state_loop_keys (bs bs' : list (ident * Ball)) (index : Z) (h : History) :
  set_state_loop bs index h = Ok bs' -> dict_keys bs' = dict_keys bs.
Proof.
  revert bs'. induction bs as [| [k b] bs IH]; intros bs' H; cbn [set_state_loop] in H.
  - now inversion H.
  - destruct (dict_get (Some k) (h_balls h)) as [e | |]; cbn [bind] in H; try discriminate.
    destruct (py_index (h_rvw e) index) as [rvw | |]; cbn [bind] in H; try discriminate.
    destruct (py_index (h_s e) index) as [s | |]; cbn [bind] in H; try discriminate.
    destruct (set_state_loop bs index h) as [rest | |]; cbn [bind] in H; try discriminate.
    inversion H; subst. simpl. f_equal. now apply IH.
Qed.

Lemma set_table_state_recording (sys sys2 : Shot) (index : Z) (h : History) :
  set_table_state_via_history sys index h = Ok sys2 ->
  dict_keys (balls sys2) = dict_keys (balls sys) /\ history sys2 = history sys /\
  n sys2 = n sys /\ vectorized sys2 = vectorized sys /\
  (recording sys -> recording sys2) /\ (resampled sys -> resampled sys2).
Proof.
  unfold set_table_state_via_history. intros H.
  destruct (set_state_loop (balls sys) index h) as [bs | |] eqn:E; cbn [bind] in H;
    try discriminate.
  inversion H; subst sys2. clear H. cbn [balls with_balls history n vectorized].
  pose proof (set_state_loop_keys _ _ _ _ E) as K.
  split; [exact K |]. split; [reflexivity |]. split; [reflexivity |]. split; [reflexivity |].
  split.
  - intros (V & U & A & I). split; [exact V |].
    split; [unfold unique_keys; cbn [balls with_balls]; now rewrite K |].
    split; [exact (aligned_transfer sys (with_balls sys bs) A K eq_refl eq_refl) | exact I].
  - intros (A & I & N & Ev & T).
    split; [exact (aligned_transfer sys (with_balls sys bs) A K eq_refl eq_refl) |]. repeat split; assumption.
Qed.

Lemma evolve_resampled (sys sys' : Shot) (dt : float) :
  recording sys -> resampled sys -> evolve sys dt true None = Ok sys' ->
  recording sys' /\ resampled sys' /\ dict_keys (balls sys') = dict_keys (balls sys).
Proof.
  intros R (A & _ & N & Ev & T) H.
  destruct (evolve_recording _ _ _ _ R H) as (R' & K' & N' & E' & T').
  split; [exact R' |]. split; [| exact K'].
  destruct R' as (_ & _ & A' & I').
  split; [exact A' |]. split; [exact I' |]. split; [lia |]. split.
  - rewrite E', Ev, N', (next_length (n sys)) by lia.
    cbn [repeat]. now rewrite repeat_cons.
  - rewrite T'. destruct (h_time (history sys)); [discriminate | exact T].
Qed.

Lemma continuize_steps_resampled (fuel : nat) (sys : Shot) (dt event_tau et dtp : float)
  (r : Shot * float * float) :
  recording sys -> resampled sys ->
  continuize_steps fuel sys dt event_tau et dtp = Ok r ->
  recording (fst (fst r)) /\ resampled (fst (fst r)) /\
  dict_keys (balls (fst (fst r))) = dict_keys (balls sys).
Proof.
  revert sys et dtp. induction fuel as [| fuel IH]; intros sys et dtp R S H;
    cbn [continuize_steps] in H.
  - destruct (et <? event_tau - dtp); [discriminate |]. inversion H; subst r. auto.
  - destruct (et <? event_tau - dtp).
    + destruct (evolve sys dtp true None) as [s1 | |] eqn:E; cbn [bind] in H; try discriminate.
      destruct (evolve_resampled _ _ _ R S E) as (R1 & S1 & K1).
      destruct (IH _ _ _ R1 S1 H) as (R' & S' & K'). rewrite K', K1. auto.
    + inversion H; subst r. auto.
Qed.

Lemma continuize_events_resampled (fuel : nat) (dt : float) (old : History)
  (entries : list (Z * option Event)) (sys sys' : Shot) (dtp : float) :
  recording sys -> resampled sys ->
  continuize_events fuel sys dt old entries dtp = Ok sys' ->
  recording sys' /\ resampled sys' /\ dict_keys (balls sys') = dict_keys (balls sys).
Proof.
  revert sys dtp. induction entries as [| [index [event |]] rest IH]; intros sys dtp R S H;
    cbn [continuize_events] in H.
  - inversion H; subst sys'. auto.
  - destruct (tau event =? infinity); [inversion H; subst sys'; auto |].
    destruct (continuize_steps fuel sys dt (tau event) 0 dtp) as [[[s1 et] dp] | |] eqn:E;
      cbn [bind] in H; try discriminate.
    destruct (continuize_steps_resampled _ _ _ _ _ _ _ R S E) as (R1 & S1 & K1).
    cbn [fst] in R1, S1, K1.
    destruct (set_table_state_via_history s1 index old) as [s2 | |] eqn:E2; cbn [bind] in H;
      try discriminate.
    destruct (set_table_state_recording _ _ _ _ E2) as (K2 & _ & _ & _ & R2 & S2).
    destruct (IH _ _ (R2 R1) (S2 S1) H) as (R' & S' & K'). rewrite K', K2, K1. auto.
  - exact (IH _ _ R S H).
Qed.

Lemma dict_find_constant {A : Type} (v : A) (ks : list ident) (k : ident) :
  In k ks -> dict_find k (map (fun k => (k, v)) ks) = Some v.
Proof.
  induction ks as [| k0 ks IH]; intros H; [contradiction |]. simpl.
  destruct (String.eqb k k0) eqn:E; [reflexivity |].
  apply String.eqb_neq in E. destruct H as [H | H]; [congruence | now apply IH].
Qed.

Lemma reset_history_recording (sys sys0 : Shot) :
  unique_keys (balls sys) -> reset_history sys = Ok sys0 ->
  recording sys0 /\ balls sys0 = balls sys /\ n sys0 = (-1)%Z /\ time sys0 = 0 /\
  h_event (history sys0) = [] /\ h_time (history sys0) = [].
Proof.
  intros U. unfold reset_history, touch_history.
  rewrite touch_history_loop_fresh; cbn [balls n history h_balls empty_history];
    try assumption; try lia; [| apply incl_refl | intros k _ []].
  intros [= <-]. cbn [balls n time history h_event h_time table g vectorized h_index app].
  repeat split; try assumption.
  - cbn [n]. lia.
  - intros k Hk. cbn [balls] in Hk. cbn [history h_balls].
    rewrite (dict_find_constant (mkBallHistory [] []) _ _ Hk).
    eexists. split; [reflexivity |]. split; reflexivity.
Qed.

(** X18.  The history [continuize] leaves.  It is vectorized and in step,
    with [n + 1 >= 1] samples in every list and [history['index']] equal to
    [0 .. n]; the first sample is at time [0]; no sample carries an event
    (every entry of [history['event']] is [None]), so that afterwards
    [get_event_history_for_ball] raises [AttributeError] for every ball.  The
    keys of [self.balls] are unchanged. *)
Theorem continuize_history_shape (fuel : nat) (sys sys' : Shot) (dt : float) :
  unique_keys (balls sys) -> continuize fuel sys dt = Ok sys' ->
  vectorized sys' = true /\ resampled sys' /\
  dict_keys (balls sys') = dict_keys (balls sys) /\
  forall k, get_event_history_for_ball sys' k = Raise AttributeError.
Proof.
  intros U H. unfold continuize in H.
  destruct (reset_history sys) as [sys0 | |] eqn:H0; cbn [bind] in H; try discriminate.
  destruct (reset_history_recording _ _ U H0) as (R0 & B0 & N0 & T0 & E0 & Tm0).
  destruct (set_table_state_via_history sys0 0 (history sys)) as [sys1 | |] eqn:H1;
    cbn [bind] in H; try discriminate.
  destruct (set_table_state_recording _ _ _ _ H1) as (K1 & Hh1 & N1 & _ & R1 & _).
  specialize (R1 R0).
  destruct (timestamp sys1 0 None) as [sys2 | |] eqn:H2; cbn [bind] in H; try discriminate.
  destruct (timestamp_recording _ _ _ _ R1 H2) as (R2 & B2 & N2 & E2 & T2).
  destruct (timestamp_frame _ _ _ _ H2) as (_ & _ & _ & _ & _ & _ & Tm2 & _).
  assert (S2 : resampled sys2).
  { destruct R2 as (_ & _ & A2 & I2). split; [exact A2 |]. split; [exact I2 |].
    rewrite N2, N1, N0, E2, T2, Hh1, E0, Tm0, Tm2.
    unfold set_table_state_via_history in H1.
    destruct (set_state_loop _ _ _); cbn [bind] in H1; try discriminate.
    inversion H1; subst sys1. cbn [time with_balls]. rewrite T0.
    split; [lia |]. split; reflexivity. }
  destruct (continuize_events fuel sys2 dt (history sys) _ dt) as [sys3 | |] eqn:H3;
    cbn [bind] in H; try discriminate.
  inversion H; subst sys'. clear H.
  destruct (continuize_events_resampled _ _ _ _ _ _ _ R2 S2 H3) as (_ & S3 & K3).
  split; [reflexivity |]. split; [exact S3 |]. split.
  - change (dict_keys (balls sys3) = dict_keys (balls sys)).
    rewrite K3, B2, K1, B0. reflexivity.
  - intros k. unfold get_event_history_for_ball.
    change (history (vectorize_history sys3)) with (history sys3).
    destruct S3 as (_ & _ & N3 & E3 & _). rewrite E3.
    apply event_history_loop_none.
    replace (Z.to_nat (n sys3 + 1)) with (S (Z.to_nat (n sys3))) by lia.
    simpl. auto.
Qed.

Lemma continuize_steps_stop (fuel : nat) (sys : Shot) (dt event_tau et dtp : float) :
  (et <? event_tau - dtp) = false ->
  continuize_steps fuel sys dt event_tau et dtp = Ok (sys, et, dtp).
Proof. intros H. destruct fuel; cbn [continuize_steps]; now rewrite H. Qed.

Lemma continuize_steps_zero (fuel : nat) (sys : Shot) (event_tau : float)
  (r : Shot * float * float) :
  (0 <? event_tau - 0) = true -> continuize_steps fuel sys 0 event_tau 0 0 <> Ok r.
Proof.
  intros Hc. revert sys. induction fuel as [| fuel IH]; intros sys; cbn [continuize_steps];
    rewrite Hc; [discriminate |].
  destruct (evolve sys 0 true None) as [s | |]; cbn [bind]; try discriminate.
  change (0 + 0) with 0. apply IH.
Qed.

(** X19.  [continuize(dt=0)] does not return on a recorded shot whose
    second event lies after the first: the loop
    [while event_time < (event.tau - dt_prime)] then adds [0] to
    [event_time] for ever (a sample is logged at every turn).  For every
    amount of fuel the result is an exception or the exhaustion of the
    fuel. *)
Theorem continuize_zero_dt_never_returns (fuel : nat) (sys : Shot) (i0 i : Z) (e : Event)
  (rest : list (Z * option Event)) :
  combine (h_index (history sys)) (h_event (history sys)) =
    (i0, Some initial_event) :: (i, Some e) :: rest ->
  (tau e =? infinity) = false -> (0 <? tau e - 0) = true ->
  forall sys', continuize fuel sys 0 <> Ok sys'.
Proof.
  intros Hc He Hlt sys' H. unfold continuize in H.
  destruct (reset_history sys) as [sys0 | |]; cbn [bind] in H; try discriminate.
  destruct (set_table_state_via_history sys0 0 (history sys)) as [sys1 | |];
    cbn [bind] in H; try discriminate.
  destruct (timestamp sys1 0 None) as [sys2 | |]; cbn [bind] in H; try discriminate.
  rewrite Hc in H. cbn [continuize_events] in H.
  change (tau initial_event =? infinity) with false in H.
  rewrite (continuize_steps_stop fuel sys2 0 (tau initial_event) 0 0 eq_refl) in H.
  cbn [bind] in H.
  destruct (set_table_state_via_history sys2 i0 (history sys)) as [sys3 | |];
    cbn [bind] in H; try discriminate.
  rewrite He in H.
  change (0 - (tau initial_event - 0)) with 0 in H.
  destruct (continuize_steps fuel sys3 0 (tau e) 0 0) as [r | |] eqn:E; cbn [bind] in H;
    try discriminate.
  exact (continuize_steps_zero _ _ _ _ Hlt E).
Qed.

(** X20.  [continuize] needs a recorded shot.  On a shot with at least one
    ball it raises [KeyError] when [history['balls']] is empty (a shot built
    with [set_balls] and never simulated) and [IndexError] when the history is
    in step but has no sample (right after [reset_history]). *)
Theorem continuize_without_samples (fuel : nat) (sys : Shot) (dt : float) :
  balls sys <> [] ->
  (h_balls (history sys) = [] -> continuize fuel sys dt = Raise KeyError) /\
  (aligned sys -> n sys = (-1)%Z -> continuize fuel sys dt = Raise IndexError).
Proof.
  intros Hne. unfold continuize.
  destruct (touch_history_ok
              (mkShot (balls sys) (table sys) (g sys) false empty_history (-1)%Z 0))
    as (sys0 & H0 & S0 & _).
  unfold reset_history. rewrite H0. cbn [bind].
  destruct S0 as (B0 & _). cbn [balls] in B0.
  unfold set_table_state_via_history. rewrite B0.
  destruct (balls sys) as [| [k b] bs] eqn:Eb; [congruence |].
  cbn [set_state_loop dict_get]. split.
  - intros ->. reflexivity.
  - intros (_ & _ & _ & _ & Hb) N.
    destruct (Hb k) as (e & He & _ & Hr); [rewrite Eb; simpl; auto |].
    rewrite He. cbn [bind].
    rewrite N in Hr. change (Z.to_nat (-1 + 1)) with O in Hr.
    apply length_zero_iff_nil in Hr. rewrite Hr. reflexivity.
Qed.

End Run.

(** The first iteration on [bounce_shot]. *)
Lemma iteration_returns_witness :
  exists sys' ev,
    iteration bounce_started = Ok (sys', ev) /\ well_formed bounce_started ev /\
    vectorized sys' = false /\ covered sys' /\ keyed_by_id sys' /\
    dict_keys (balls sys') = dict_keys (balls bounce_started) /\
    n sys' = (n bounce_started + 1)%Z.
Proof.
  apply (iteration_returns bounce_started).
  - reflexivity.
  - assert (E : dict_keys (h_balls (history bounce_started)) =
                dict_keys (balls bounce_started)) by (vm_compute; reflexivity).
    unfold covered. rewrite E. apply incl_refl.
  - split; vm_compute; repeat constructor.
  - vm_compute. reflexivity.
Defined.

(** [simulate(time=2)] on [bounce_shot]. *)
Lemma simulate_history_shape_witness :
  vectorized bounce_simulated = true /\ aligned bounce_simulated /\
  index_range bounce_simulated /\ (1 <= n bounce_simulated)%Z /\
  dict_keys (balls bounce_simulated) = dict_keys (balls bounce_shot) /\
  last_time bounce_simulated /\
  exists evs,
    h_event (history bounce_simulated) = map Some (initial_event :: evs) /\
    List.length evs = Z.to_nat (n bounce_simulated) /\
    forall k, get_event_history_for_ball bounce_simulated k =
      Ok (filter (fun e => existsb (agent_is k) (agents e)) (initial_event :: evs)).
Proof.
  apply (simulate_history_shape 2 (Some 2) bounce_shot bounce_simulated).
  - distinct_keys.
  - unfold blank. repeat split. intros k e H. discriminate H.
  - vm_compute. reflexivity.
Defined.

(** [simulate()] on two balls at rest. *)
Lemma simulate_unbounded_ends_at_infinity_witness :
  exists sysp sysl,
    iteration sysp = Ok (sysl, mkEvent None [] infinity) /\
    rest_simulated = vectorize_history sysl /\
    balls rest_simulated = evolve_balls sysp infinity /\
    time rest_simulated = time sysp + infinity /\
    h_event (history rest_simulated) =
      h_event (history sysp) ++ [Some (mkEvent None [] infinity)] /\
    h_time (history rest_simulated) = h_time (history sysp) ++ [time sysp + infinity].
Proof.
  apply (simulate_unbounded_ends_at_infinity 1 rest_shot rest_simulated).
  vm_compute. reflexivity.
Defined.

(** [continuize(dt=0.75)] on [bounce_recorded]. *)
Lemma continuize_history_shape_witness :
  vectorized bounce_resampled = true /\ resampled bounce_resampled /\
  dict_keys (balls bounce_resampled) = dict_keys (balls bounce_recorded) /\
  forall k, get_event_history_for_ball bounce_resampled k = Raise AttributeError.
Proof.
  apply (continuize_history_shape 2 bounce_recorded bounce_resampled 0.75).
  - distinct_keys.
  - vm_compute. reflexivity.
Defined.

(** [continuize(dt=0)] on [bounce_recorded], whose impact comes at time 1. *)
Lemma continuize_zero_dt_never_returns_witness :
  (tau right_hit =? infinity) = false /\ (0 <? tau right_hit - 0) = true /\
  forall sys', continuize 3 bounce_recorded 0 <> Ok sys'.
Proof.
  split; [reflexivity |]. split; [reflexivity |].
  apply (continuize_zero_dt_never_returns 3 bounce_recorded 0 1 right_hit []).
  - reflexivity.
  - reflexivity.
  - reflexivity.
Defined.

(** [bounce_shot] has a ball and was never simulated. *)
Lemma continuize_without_samples_witness :
  (h_balls (history bounce_shot) = [] -> continuize 1 bounce_shot 0.5 = Raise KeyError) /\
  (aligned bounce_shot -> n bounce_shot = (-1)%Z ->
   continuize 1 bounce_shot 0.5 = Raise IndexError).
Proof.
  apply (continuize_without_samples 1 bounce_shot 0.5). discriminate.
Defined.

End RunFacts.

(** ** Overlapping balls *)

Module OverlapFacts.

Import Engine EngineFacts.

Local Open Scope float_scope.



Section Overlapping.

Variable is_overlapping : RVW -> RVW -> float -> float -> bool.




End Overlapping.

End OverlapFacts.
